(** * Tranzio: the request resolution pipeline

    A shallow embedding of the translation pipeline of Tranzio
    (rag.js, prompts/dynamic.js, utils/structuredOutput.js, functions.js and
    translator.js) and the proofs of its specified properties.

    JavaScript strings are sequences of UTF-16 code units, objects are
    finite maps from property names to values, [async] functions are
    modelled by their results, and [try]/[catch] by an error monad.  What
    the program reads from its environment (the clock, the glossary file,
    the generative model, [JSON.parse]) is passed in explicitly. *)

From stdpp Require Import gmap list numbers.
From Stdlib Require Import Strings.Byte NArith QArith Qcanon Lia.

Set Warnings "-via-type-remapping,-via-type-mismatch,-register-all".

(** ** JavaScript strings *)

(** A string is the list of its UTF-16 code units. *)
Abbreviation jsstring := (list N).

(** String literals are written in UTF-8 in this file and stored as code
    units: [utf16_of_utf8] decodes one to four byte sequences, the last as
    a surrogate pair. *)
Fixpoint utf16_of_utf8 (bs : list N) : list N :=
  match bs with
  | [] => []
  | b0 :: r0 =>
    if (b0 <? 128)%N then b0 :: utf16_of_utf8 r0
    else match r0 with
      | [] => [65533%N]
      | b1 :: r1 =>
        if (b0 <? 224)%N
        then ((b0 - 192) * 64 + (b1 - 128))%N :: utf16_of_utf8 r1
        else match r1 with
          | [] => [65533%N]
          | b2 :: r2 =>
            if (b0 <? 240)%N
            then ((b0 - 224) * 4096 + (b1 - 128) * 64 + (b2 - 128))%N
                 :: utf16_of_utf8 r2
            else match r2 with
              | [] => [65533%N]
              | b3 :: r3 =>
                let cp := ((b0 - 240) * 262144 + (b1 - 128) * 4096
                           + (b2 - 128) * 64 + (b3 - 128))%N in
                (55296 + (cp - 65536) / 1024)%N
                :: (56320 + (cp - 65536) mod 1024)%N
                :: utf16_of_utf8 r3
              end
          end
      end
  end.

Inductive jsliteral := LitNil | LitCons (c : N) (r : jsliteral).

Fixpoint literal_of_units (l : list N) : jsliteral :=
  match l with [] => LitNil | c :: r => LitCons c (literal_of_units r) end.

Fixpoint units_of_literal (l : jsliteral) : list N :=
  match l with LitNil => [] | LitCons c r => c :: units_of_literal r end.

Definition parse_literal (bs : list Byte.byte) : jsliteral :=
  literal_of_units (utf16_of_utf8 (map (fun b => N.of_nat (Byte.to_nat b)) bs)).

Definition print_literal (l : jsliteral) : option (list Byte.byte) :=
  let s := units_of_literal l in
  if forallb (fun c => (32 <=? c)%N && (c <? 127)%N && negb (c =? 34)%N) s
  then Some (omap (fun c => Byte.of_nat (N.to_nat c)) s)
  else None.

Declare Scope js_scope.
Delimit Scope js_scope with js.
Definition jsstring_literal : Type := list N.
String Notation jsstring_literal parse_literal print_literal
  (via jsliteral mapping [[nil] => LitNil, [cons] => LitCons]) : js_scope.

Module JS.

(** The double quote and the line feed, written apart from the literals. *)
Definition dquote : jsstring := [34%N].
Definition newline : jsstring := [10%N].

(** [s] between double quotes *)
Definition quoted (s : jsstring) : jsstring := dquote ++ s ++ dquote.

(** *** White space: [\s] of a regular expression and [String.prototype.trim]

    ECMAScript's WhiteSpace and LineTerminator code points: TAB, LF, VT,
    FF, CR, SP, NBSP, U+1680, U+2000..U+200A, U+2028, U+2029, U+202F,
    U+205F, U+3000 and U+FEFF. *)
Definition is_whitespace (c : N) : bool :=
  ((9 <=? c) && (c <=? 13) || (c =? 32) || (c =? 160) || (c =? 5760)
   || (8192 <=? c) && (c <=? 8202) || (c =? 8232) || (c =? 8233)
   || (c =? 8239) || (c =? 8287) || (c =? 12288) || (c =? 65279))%N.

Fixpoint trimStart (s : jsstring) : jsstring :=
  match s with
  | [] => []
  | c :: r => if is_whitespace c then trimStart r else s
  end.

Definition trimEnd (s : jsstring) : jsstring := rev (trimStart (rev s)).

(** [s.trim()] *)
Definition trim (s : jsstring) : jsstring := trimEnd (trimStart s).

(** *** [String.prototype.toLowerCase]

    The mapping of the Basic Latin and Latin-1 Supplement blocks: A..Z
    and U+00C0..U+00DE (without the multiplication sign U+00D7) move down
    by 32.  Code units of other blocks are left as they are here; the
    engine also lowers the letters of other scripts. *)
Definition lower_unit (c : N) : N :=
  (if (65 <=? c) && (c <=? 90) then c + 32
   else if (192 <=? c) && (c <=? 222) && negb (c =? 215) then c + 32
   else c)%N.

Definition toLowerCase (s : jsstring) : jsstring := map lower_unit s.

(** *** [s.split(/\s+/)]

    The pieces of [s] between maximal runs of white space.  A run at the
    start or at the end of [s] leaves an empty piece there, and the empty
    string splits into one empty piece.  [acc] holds the current piece in
    reverse, [in_run] says that the previous unit was white space. *)
Fixpoint split_go (in_run : bool) (acc : jsstring) (s : jsstring)
  : list jsstring :=
  match s with
  | [] => [rev acc]
  | c :: r =>
    if is_whitespace c
    then if in_run then split_go true acc r
         else rev acc :: split_go true [] r
    else split_go false (c :: acc) r
  end.

Definition split_whitespace (s : jsstring) : list jsstring :=
  split_go false [] s.

(** [a.join(sep)] on an array of strings *)
Fixpoint join (sep : jsstring) (a : list jsstring) : jsstring :=
  match a with
  | [] => []
  | [x] => x
  | x :: r => x ++ sep ++ join sep r
  end.

(** A template literal, given line by line. *)
Definition lines (l : list jsstring) : jsstring := join newline l.

(** *** Values and objects *)

Inductive value :=
| VUndefined
| VNull
| VBool (b : bool)
| VNum (q : Qc)
| VStr (s : jsstring)
| VObj (o : gmap jsstring value)
| VArr (a : list value).

(** An object is the finite map of its own properties. *)
Abbreviation object := (gmap jsstring value).

(** [o.k]: the property, or [undefined] *)
Definition get (o : object) (k : jsstring) : value :=
  default VUndefined (o !! k).

(** ToBoolean *)
Definition truthy (v : value) : bool :=
  match v with
  | VUndefined | VNull => false
  | VBool b => b
  | VNum q => negb (bool_decide (q = 0%Qc))
  | VStr s => match s with [] => false | _ => true end
  | VObj _ | VArr _ => true
  end.

(** [v || d] *)
Definition or_else (v d : value) : value := if truthy v then v else d.

(** [s || d] for a parameter [s] that is a string or [null] *)
Definition or_string (s : option jsstring) (d : jsstring) : jsstring :=
  match s with
  | Some (c :: r) => c :: r
  | _ => d
  end.

(** [typeof v === 'string'] *)
Definition is_string (v : value) : bool :=
  match v with VStr _ => true | _ => false end.

(** *** Exceptions *)

Record error := Error { message : jsstring }.

Inductive result (A : Type) :=
| Return (a : A)
| Throw (e : error).
Arguments Return {A} a.
Arguments Throw {A} e.

(** Sequencing, also across [await]: a thrown error skips what follows. *)
#[export] Instance result_ret : MRet result := fun A a => Return a.
#[export] Instance result_bind : MBind result := fun A B k m =>
  match m with
  | Return a => k a
  | Throw e => Throw e
  end.

(** [try { body } catch (error) { handler }] *)
Definition try_catch {A} (body : result A) (handler : error -> result A)
  : result A :=
  match body with
  | Return a => Return a
  | Throw e => handler e
  end.

(** Reading property [prop] of a value that may be [undefined]: the
    TypeError of the engine when it is. *)
Definition read {A} (prop : jsstring) (o : option A) : result A :=
  match o with
  | Some a => Return a
  | None =>
    Throw (Error ("Cannot read properties of undefined (reading '"%js
                  ++ prop ++ "')"%js))
  end.

End JS.


Import JS.
Local Open Scope js_scope.

(** ** utils/structuredOutput.js *)

Module StructuredOutput.

(** An object literal [{...base, k1: v1, ..., kn: vn}]: the fields are set
    from left to right, a later one replacing an earlier one. *)
Definition set_fields (base : object) (fields : list (jsstring * value))
  : object :=
  foldl (fun o kv => <[kv.1 := kv.2]> o) base fields.

Definition object_literal (fields : list (jsstring * value)) : object :=
  set_fields ∅ fields.

Definition DEFAULT_RESPONSE_STRUCTURE : object :=
  object_literal
    [ ("source_language", VStr "");
      ("target_language", VStr "");
      ("translated_text", VStr "");
      ("status", VStr "success");
      ("timestamp", VStr "");
      ("confidence", VNum 1);
      ("cultural_notes", VStr "");
      ("error", VNull) ].

(** [formatStructuredOutput(data)], with [now] the value of
    [new Date().toISOString()] at the call.  [data ∪ _] is the spread
    [{...DEFAULT_RESPONSE_STRUCTURE, ...data}], in which [data] wins. *)
Definition formatStructuredOutput (now : jsstring) (data : object) : object :=
  set_fields (data ∪ DEFAULT_RESPONSE_STRUCTURE)
    [ ("timestamp", VStr now);
      ("source_language",
        or_else (get data "source_language") (VStr "auto-detected"));
      ("target_language", or_else (get data "target_language") (VStr ""));
      ("translated_text", or_else (get data "translated_text") (VStr ""));
      ("status", or_else (get data "status") (VStr "success")) ].

Definition requiredFields : list jsstring :=
  [ "source_language"; "target_language"; "translated_text"; "status" ].

(** [validateStructuredOutput(output)]: [typeof output] is ['object'] for
    objects, arrays and [null]; [null] is falsy and an array of JSON values
    has none of the required properties.  The call
    [output.hasOwnProperty(field)] looks the method up in [output] first:
    a property [hasOwnProperty] of its own hides the method that objects
    inherit, and since no value here is a function, calling it throws. *)
Definition validateStructuredOutput (output : value) : result bool :=
  match output with
  | VObj o =>
    match o !! "hasOwnProperty" with
    | Some _ => Throw (Error "output.hasOwnProperty is not a function")
    | None =>
      Return (forallb (fun field => bool_decide (is_Some (o !! field)))
                requiredFields)
    end
  | _ => Return false
  end.

(** [createErrorResponse(error, sourceLang, targetLang)] *)
Definition createErrorResponse (now : jsstring)
    (error : jsstring) (sourceLang targetLang : jsstring) : object :=
  formatStructuredOutput now
    (object_literal
       [ ("source_language", VStr sourceLang);
         ("target_language", VStr targetLang);
         ("translated_text", VStr "");
         ("status", VStr "error");
         ("error", VStr error) ]).

(** [createSuccessResponse(translatedText, sourceLang, targetLang,
    additionalData)]: the spread of [additionalData] comes last in the
    literal, so its fields win. *)
Definition createSuccessResponse (now : jsstring)
    (translatedText sourceLang targetLang : jsstring)
    (additionalData : object) : object :=
  formatStructuredOutput now
    (additionalData ∪
     object_literal
       [ ("source_language", VStr sourceLang);
         ("target_language", VStr targetLang);
         ("translated_text", VStr translatedText);
         ("status", VStr "success") ]).

End StructuredOutput.

(** ** rag.js *)

Module Rag.
Import StructuredOutput.

(** phrase -> target language -> translation *)
Abbreviation glossary := (gmap jsstring (gmap jsstring jsstring)).

Definition DEFAULT_GLOSSARY : glossary :=
  list_to_map
    [ ("hello", list_to_map
        [ ("Spanish", "hola"); ("French", "bonjour"); ("German", "hallo");
          ("Italian", "ciao"); ("Portuguese", "olá"); ("Russian", "привет");
          ("Japanese", "こんにちは"); ("Korean", "안녕하세요");
          ("Chinese", "你好"); ("Arabic", "مرحبا") ]);
      ("goodbye", list_to_map
        [ ("Spanish", "adiós"); ("French", "au revoir");
          ("German", "auf wiedersehen"); ("Italian", "arrivederci");
          ("Portuguese", "adeus"); ("Russian", "до свидания");
          ("Japanese", "さようなら"); ("Korean", "안녕히 가세요");
          ("Chinese", "再见"); ("Arabic", "مع السلامة") ]);
      ("thank you", list_to_map
        [ ("Spanish", "gracias"); ("French", "merci"); ("German", "danke");
          ("Italian", "grazie"); ("Portuguese", "obrigado");
          ("Russian", "спасибо"); ("Japanese", "ありがとう");
          ("Korean", "감사합니다"); ("Chinese", "谢谢"); ("Arabic", "شكرا") ]);
      ("yes", list_to_map
        [ ("Spanish", "sí"); ("French", "oui"); ("German", "ja");
          ("Italian", "sì"); ("Portuguese", "sim"); ("Russian", "да");
          ("Japanese", "はい"); ("Korean", "네"); ("Chinese", "是");
          ("Arabic", "نعم") ]);
      ("no", list_to_map
        [ ("Spanish", "no"); ("French", "non"); ("German", "nein");
          ("Italian", "no"); ("Portuguese", "não"); ("Russian", "нет");
          ("Japanese", "いいえ"); ("Korean", "아니요"); ("Chinese", "不");
          ("Arabic", "لا") ]) ].

(** What [JSON.parse] makes of the glossary file.  Two kinds of documents
    are modelled: a mapping of the glossary's shape, and the document
    [null], on which the property reads of [checkRAG] throw. *)
Inductive stored :=
| StoredNull
| StoredGlossary (g : glossary).

(** The state of [./data/glossary.json] at a call: [fs.readFile] rejects,
    [JSON.parse] throws on the file's text, or the text parses. *)
Inductive glossary_file :=
| ReadError (e : error)
| ParseError (e : error)
| Parsed (j : stored).

Definition read_and_parse (file : glossary_file) : result stored :=
  match file with
  | ReadError e => Throw e
  | ParseError e => Throw e
  | Parsed j => Return j
  end.

(** [loadGlossary()] *)
Definition loadGlossary (file : glossary_file) : result stored :=
  try_catch (read_and_parse file)
            (fun _ => Return (StoredGlossary DEFAULT_GLOSSARY)).

(** [glossary[word][targetLang]] where [glossary[word]] is defined: the
    property that the entry of [word] has of its own. *)
Definition translation (g : glossary) (word targetLang : jsstring)
  : option jsstring :=
  g !! word ≫= (.!! targetLang).

(** The condition [glossary[word] && glossary[word][targetLang]]: the
    phrase has an entry, the entry has the language, and the translation is
    not the empty string. *)
Definition has_translation (g : glossary) (word targetLang : jsstring)
  : bool :=
  match translation g word targetLang with
  | Some (_ :: _) => true
  | _ => false
  end.

(** [findPartialMatch(text, targetLang, glossary)]; [None] is [null]. *)
Definition findPartialMatch (now : jsstring)
    (text targetLang : jsstring) (g : glossary) : option object :=
  let words := split_whitespace text in
  let allWordsFound :=
    forallb (fun word => has_translation g word targetLang) words in
  if allWordsFound then
    let translation :=
      join " " (map (fun word => default [] (translation g word targetLang))
                    words) in
    Some (createSuccessResponse now translation "auto-detected" targetLang
            (object_literal
               [ ("confidence", VNum (Q2Qc (9 # 10)));
                 ("cultural_notes",
                   VStr "Constructed from individual word translations");
                 ("source", VStr "rag_partial") ]))
  else None.

(** The body of [checkRAG], inside its [try]. *)
Definition checkRAG_body (file : glossary_file) (now : jsstring)
    (text targetLang : jsstring) (sourceLang : option jsstring)
  : result (option object) :=
  glossary ← loadGlossary file;
  let normalizedText := trim (toLowerCase text) in
  match glossary with
  | StoredNull =>
    Throw (Error ("Cannot read properties of null (reading '"
                  ++ normalizedText ++ "')"))
  | StoredGlossary g =>
    if has_translation g normalizedText targetLang then
      let translation := default [] (translation g normalizedText targetLang) in
      Return (Some (createSuccessResponse now translation
                      (or_string sourceLang "auto-detected") targetLang
                      (object_literal
                         [ ("confidence", VNum 1);
                           ("cultural_notes",
                             VStr "Retrieved from local glossary");
                           ("source", VStr "rag") ])))
    else
      match findPartialMatch now normalizedText targetLang g with
      | Some partialMatch => Return (Some partialMatch)
      | None => Return None
      end
  end.

(** [checkRAG(text, targetLang, sourceLang)]: the [catch] returns [null]. *)
Definition checkRAG (file : glossary_file) (now : jsstring)
    (text targetLang : jsstring) (sourceLang : option jsstring)
  : result (option object) :=
  try_catch (checkRAG_body file now text targetLang sourceLang)
            (fun _ => Return None).

End Rag.

(** ** prompts/zeroShot.js, oneShot.js, multiShot.js, chainOfThought.js *)

Module Prompts.

(** [sourceLang ? `The text is in ${sourceLang}.` : '...']: [null] and the
    empty string are falsy. *)
Definition sourceLangInstruction (sourceLang : option jsstring) : jsstring :=
  match sourceLang with
  | Some (c :: r) => "The text is in " ++ (c :: r) ++ "."
  | _ => "Please auto-detect the source language."
  end.

Definition getZeroShotPrompt (text targetLang : jsstring)
    (sourceLang : option jsstring) : jsstring :=
  lines
    [ "You are a professional translator. "
        ++ sourceLangInstruction sourceLang;
      "";
      "Please translate the following text to " ++ targetLang ++ ":";
      "";
      quoted text;
      "";
      "Provide only the translated text without any additional explanations or formatting." ].

Definition getOneShotPrompt (text targetLang : jsstring)
    (sourceLang : option jsstring) : jsstring :=
  lines
    [ "You are a professional translator. "
        ++ sourceLangInstruction sourceLang;
      "";
      "Here's an example of how to translate:";
      "";
      "Input: " ++ quoted "Good morning, how are you today?";
      "Source: English";
      "Target: Spanish";
      "Output: " ++ quoted "Buenos días, ¿cómo estás hoy?";
      "";
      "Now please translate the following text to " ++ targetLang ++ ":";
      "";
      quoted text;
      "";
      "Provide only the translated text without any additional explanations or formatting." ].

Definition getMultiShotPrompt (text targetLang : jsstring)
    (sourceLang : option jsstring) : jsstring :=
  lines
    [ "You are a professional translator with expertise in " ++ targetLang
        ++ ". " ++ sourceLangInstruction sourceLang;
      "";
      "Here are several examples of high-quality translations:";
      "";
      "Example 1:";
      "Input: " ++ quoted "It's raining cats and dogs";
      "Source: English";
      "Target: Spanish";
      "Output: " ++ quoted "Está lloviendo a cántaros";
      "";
      "Example 2:";
      "Input: " ++ quoted "The early bird catches the worm";
      "Source: English";
      "Target: French";
      "Output: " ++ quoted "L'oiseau matinal attrape le ver";
      "";
      "Example 3:";
      "Input: " ++ quoted "Actions speak louder than words";
      "Source: English";
      "Target: German";
      "Output: " ++ quoted "Taten sagen mehr als Worte";
      "";
      "Example 4:";
      "Input: " ++ quoted "Don't judge a book by its cover";
      "Source: English";
      "Target: Italian";
      "Output: " ++ quoted "Non giudicare un libro dalla copertina";
      "";
      "Now please translate the following text to " ++ targetLang
        ++ ", maintaining the same level of quality and cultural sensitivity:";
      "";
      quoted text;
      "";
      "Provide only the translated text without any additional explanations or formatting." ].

Definition getChainOfThoughtPrompt (text targetLang : jsstring)
    (sourceLang : option jsstring) : jsstring :=
  lines
    [ "You are a professional translator with expertise in " ++ targetLang
        ++ ". " ++ sourceLangInstruction sourceLang;
      "";
      "Please translate the following text to " ++ targetLang
        ++ " by following these steps:";
      "";
      "1. First, identify the source language and any cultural context";
      "2. Break down the text into logical components";
      "3. Identify any idioms, metaphors, or cultural references";
      "4. Consider the appropriate translation strategy for each component";
      "5. Provide the final translation";
      "";
      "Text to translate: " ++ quoted text;
      "";
      "Please think through this step by step and then provide your final translation." ].

End Prompts.

(** ** prompts/dynamic.js *)

Module Dynamic.
Import Prompts.

Inductive complexity := simple | moderate | complex.

(** Canonicalize of a case-insensitive regular expression without the
    [u] flag, on the Basic Latin letters.  A code unit above 127 never
    canonicalizes to one below 128, so against a pattern of Basic Latin
    characters this decides the match for every code unit. *)
Definition canonicalize (c : N) : N :=
  (if (97 <=? c) && (c <=? 122) then c - 32 else c)%N.

(** The pattern, a literal string, matches at the start of [s]. *)
Fixpoint matches_here (pattern s : jsstring) : bool :=
  match pattern, s with
  | [], _ => true
  | _ :: _, [] => false
  | p :: pattern', c :: s' =>
    (canonicalize p =? canonicalize c)%N && matches_here pattern' s'
  end.

(** [/pattern/i.test(s)] for a literal pattern: it matches somewhere. *)
Fixpoint matches_somewhere (pattern s : jsstring) : bool :=
  matches_here pattern s
  || match s with
     | [] => false
     | _ :: s' => matches_somewhere pattern s'
     end.

Definition idioms : list jsstring :=
  [ "it's raining cats and dogs"; "early bird"; "actions speak";
    "book by its cover" ].

(** [/(it's raining cats and dogs|early bird|actions speak|book by its
    cover)/i.test(text)] *)
Definition hasIdioms (text : jsstring) : bool :=
  existsb (fun pattern => matches_somewhere pattern text) idioms.

(** [\w]: a Basic Latin letter, a digit or the underscore *)
Definition is_word (c : N) : bool :=
  ((65 <=? c) && (c <=? 90) || (97 <=? c) && (c <=? 122)
   || (48 <=? c) && (c <=? 57) || (c =? 95))%N.

(** The negated class of [hasSpecialChars]: neither [\w] nor [\s] nor one
    of the marks . , ! ? ; : ' ( ) and the double quote. *)
Definition is_special (c : N) : bool :=
  negb (is_word c || is_whitespace c
        || bool_decide (c ∈ ".,!?;:'()" ++ dquote)).

(** The test of that class on [text]: some code unit is in it. *)
Definition hasSpecialChars (text : jsstring) : bool := existsb is_special text.

(** [text.split(/\s+/).length] *)
Definition wordCount (text : jsstring) : nat :=
  length (split_whitespace text).

Definition analyzeTextComplexity (text : jsstring) : complexity :=
  if bool_decide (wordCount text ≤ 5)%nat && negb (hasIdioms text)
     && negb (hasSpecialChars text)
  then simple
  else if bool_decide (wordCount text ≤ 15)%nat && negb (hasIdioms text)
  then moderate
  else complex.

Definition getTranslationPrompt (text targetLang : jsstring)
    (sourceLang : option jsstring) : jsstring :=
  match analyzeTextComplexity text with
  | simple => getZeroShotPrompt text targetLang sourceLang
  | moderate => getOneShotPrompt text targetLang sourceLang
  | complex => getMultiShotPrompt text targetLang sourceLang
  end.

(** [getPromptByStrategy(text, targetLang, sourceLang, strategy)]: the
    [switch] compares [strategy] with [===]. *)
Definition getPromptByStrategy (text targetLang : jsstring)
    (sourceLang : option jsstring) (strategy : jsstring) : jsstring :=
  if decide (strategy = "zero") then
    getZeroShotPrompt text targetLang sourceLang
  else if decide (strategy = "one") then
    getOneShotPrompt text targetLang sourceLang
  else if decide (strategy = "multi") then
    getMultiShotPrompt text targetLang sourceLang
  else
    getTranslationPrompt text targetLang sourceLang.

End Dynamic.

(** ** functions.js *)

Module Functions.

(** [validateFunctionArgs(args)]; [None] is an absent (falsy) [args]. *)
Definition validateFunctionArgs (args : option object) : bool :=
  match args with
  | None => false
  | Some args =>
    forallb (fun field => truthy (get args field) && is_string (get args field))
            [ "sourceLang"; "targetLang"; "translatedText" ]
  end.

End Functions.

(** ** translator.js *)

Module Translator.
Import StructuredOutput Rag Dynamic.

(** *** What the model boundary returns

    The parts of the result of [generateContent] that [translate] reads.
    A property that may be missing is an [option]; [response.text()] may
    throw. *)
Record usage := Usage {
  promptTokenCount : option N;
  candidatesTokenCount : option N;
  totalTokenCount : option N }.

Record function_call := FunctionCall {
  fc_name : jsstring;
  fc_args : option object }.

Record part := Part { part_functionCall : option function_call }.

Record content := Content { content_parts : option (list part) }.

Record candidate := Candidate { candidate_content : option content }.

Record response := Response {
  response_usageMetadata : option usage;
  response_candidates : option (list candidate);
  response_text : result jsstring }.

Record generation := Generation { generation_response : option response }.

(** [logTokens(usageMetadata)] of utils/tokenLogger.js prints a report and
    returns nothing; with token counts that are numbers or absent it does
    not throw. *)
Definition logTokens (usageMetadata : option usage) : result unit :=
  Return ().

(** The suffix of [s] from the first occurrence of [c], empty if there is
    none. *)
Fixpoint from_first (c : N) (s : jsstring) : jsstring :=
  match s with
  | [] => []
  | x :: r => if (x =? c)%N then s else from_first c r
  end.

(** [response.match(/\{[\s\S]*\}/)]: the match starts at the first opening
    brace and, the star being greedy, ends at the last closing brace after
    it; there is none without such a pair. *)
Definition match_braces (response : jsstring) : option jsstring :=
  let from_open := from_first 123 response in
  match rev (from_first 125 (rev from_open)) with
  | [] => None
  | c :: r => Some (c :: r)
  end.

Section Boundary.

(** [JSON.parse] on a text that starts with an opening brace: it throws or
    returns an object. *)
Variable JSON_parse : jsstring -> result object.

(** [this.model.generateContent], as a function of the prompt; the
    generation options and the function schema of the request are
    constants. *)
Variable generateContent : jsstring -> result generation.

(** The glossary file and the clock at the call. *)
Variable file : glossary_file.
Variable now : jsstring.

Definition parseTextResponse (response targetLang : jsstring)
    (sourceLang : option jsstring) : result object :=
  try_catch
    (match match_braces response with
     | Some jsonMatch =>
       parsed ← JSON_parse jsonMatch;
       Return (formatStructuredOutput now parsed)
     | None =>
       Return (formatStructuredOutput now
         (object_literal
            [ ("source_language",
                VStr (or_string sourceLang "auto-detected"));
              ("target_language", VStr targetLang);
              ("translated_text", VStr (trim response));
              ("status", VStr "success") ]))
     end)
    (fun parseError =>
       Return (formatStructuredOutput now
         (object_literal
            [ ("source_language", VStr (or_string sourceLang "unknown"));
              ("target_language", VStr targetLang);
              ("translated_text", VStr (trim response));
              ("status", VStr "partial_success");
              ("error", VStr "Failed to parse structured response") ]))).

(** The [try] block of [translate]. *)
Definition translate_body (text targetLang : jsstring)
    (sourceLang : option jsstring) : result object :=
  ragResult ← checkRAG file now text targetLang sourceLang;
  match ragResult with
  | Some ragResult => Return ragResult
  | None =>
    let prompt := getTranslationPrompt text targetLang sourceLang in
    result ← generateContent prompt;
    response ← read "usageMetadata" (generation_response result);
    _ ← logTokens (response_usageMetadata response);
    candidates ← read "0" (response_candidates response);
    candidate0 ← read "content" (head candidates);
    content ← read "parts" (candidate_content candidate0);
    parts ← read "0" (content_parts content);
    part0 ← read "functionCall" (head parts);
    match part0.(part_functionCall) ≫= fc_args with
    | Some args =>
      Return (formatStructuredOutput now
        (object_literal
           [ ("source_language",
               or_else (get args "sourceLang") (VStr "auto-detected"));
             ("target_language", get args "targetLang");
             ("translated_text", get args "translatedText");
             ("status", VStr "success") ]))
    | None =>
      textResponse ← response_text response;
      parseTextResponse textResponse targetLang sourceLang
    end
  end.

(** [translate(text, targetLang, sourceLang)] *)
Definition translate (text targetLang : jsstring)
    (sourceLang : option jsstring) : result object :=
  try_catch (translate_body text targetLang sourceLang)
    (fun error =>
       Return (formatStructuredOutput now
         (object_literal
            [ ("source_language", VStr (or_string sourceLang "unknown"));
              ("target_language", VStr targetLang);
              ("translated_text", VStr "");
              ("status", VStr "error");
              ("error", VStr (message error)) ]))).

End Boundary.

End Translator.

(** ** rag.js: the glossary as state *)

Module RagStore.
Import StructuredOutput Rag.

(** What [addToGlossary] changes: the object [DEFAULT_GLOSSARY] of the
    running process, which [loadGlossary] hands out itself, not as a copy,
    when the file cannot be read or parsed; and the glossary file. *)
Record store := Store {
  memory : glossary;
  disk : glossary_file }.

(** A process that starts with the glossary file [file]. *)
Definition initial (file : glossary_file) : store :=
  Store DEFAULT_GLOSSARY file.

(** What [loadGlossary()] returns in a state: a fresh object parsed from
    the file, or the default object of the process. *)
Inductive loaded :=
| Fresh (j : stored)
| TheDefault (g : glossary).

Definition loadGlossary_in (st : store) : loaded :=
  match read_and_parse (disk st) with
  | Return j => Fresh j
  | Throw _ => TheDefault (memory st)
  end.

(** The glossary file as a resolution in this state sees it. *)
Definition snapshot (st : store) : glossary_file :=
  match loadGlossary_in st with
  | Fresh j => Parsed j
  | TheDefault g => Parsed (StoredGlossary g)
  end.

(** [checkRAG] in a process state: it works on what [loadGlossary]
    returns there. *)
Definition checkRAG_in (st : store) (now : jsstring)
    (text targetLang : jsstring) (sourceLang : option jsstring)
  : result (option object) :=
  checkRAG (snapshot st) now text targetLang sourceLang.

(** [if (!glossary[phrase]) glossary[phrase] = {};
     glossary[phrase][targetLang] = translatedText], as a write of own
    properties. *)
Definition set_translation (g : glossary)
    (phrase targetLang translatedText : jsstring) : glossary :=
  <[phrase := <[targetLang := translatedText]> (default ∅ (g !! phrase))]> g.

(** What [fs.writeFile] does at a call: it resolves, and the file then
    holds the text written; or it rejects and leaves the file in some
    state. *)
Inductive write_outcome :=
| Written
| WriteFails (e : error) (left_behind : glossary_file).

(** [addToGlossary(sourceText, translatedText, targetLang, sourceLang)]
    with the outcomes [mkdir] of [fs.mkdir] and [write] of [fs.writeFile].
    It returns its boolean and the state it leaves.  The object is changed
    before the directory is made and the file written, so when it is the
    default object of the process the change stays in [memory] also when
    saving fails.  A file written holds [JSON.stringify(glossary)], which
    parses back to the glossary.  On the document [null] the first property
    read throws and the [catch] returns [false]. *)
Definition addToGlossary (st : store)
    (sourceText translatedText targetLang sourceLang : jsstring)
    (mkdir : result unit) (write : write_outcome) : bool * store :=
  let normalizedText := trim (toLowerCase sourceText) in
  let save (memory' : glossary) (glossary : glossary) : bool * store :=
    match mkdir with
    | Throw _ => (false, Store memory' (disk st))
    | Return _ =>
      match write with
      | Written => (true, Store memory' (Parsed (StoredGlossary glossary)))
      | WriteFails _ left_behind => (false, Store memory' left_behind)
      end
    end in
  match loadGlossary_in st with
  | Fresh StoredNull => (false, st)
  | Fresh (StoredGlossary g) =>
    save (memory st)
         (set_translation g normalizedText targetLang translatedText)
  | TheDefault g =>
    let glossary :=
      set_translation g normalizedText targetLang translatedText in
    save glossary glossary
  end.

(** The result of [getGlossaryStats()]: the three statistics, or the
    message of the error caught. *)
Inductive stats :=
| Stats (totalEntries totalTranslations : nat)
        (averageTranslationsPerEntry : value)
| StatsError (error : jsstring).

Section Stats.

(** [(a / b).toFixed(2)] for two counts [a] and [b > 0]: the quotient of
    two numbers printed with two decimals. *)
Variable toFixed2 : nat -> nat -> jsstring.

(** [getGlossaryStats()]: [Object.keys(glossary).length] entries and the
    sum over the entries of their numbers of languages.  On the document
    [null], [Object.keys] throws. *)
Definition getGlossaryStats (st : store) : stats :=
  match loadGlossary_in st with
  | Fresh StoredNull =>
    StatsError "Cannot convert undefined or null to object"
  | Fresh (StoredGlossary g) | TheDefault g =>
    let totalEntries := size g in
    let totalTranslations :=
      map_fold (fun _ entry sum => (sum + size entry)%nat) 0%nat g in
    Stats totalEntries totalTranslations
      (if bool_decide (0 < totalEntries)%nat
       then VStr (toFixed2 totalTranslations totalEntries)
       else VNum 0)
  end.

End Stats.

End RagStore.

Import StructuredOutput Rag Prompts Dynamic Functions Translator RagStore.

(** * The vocabulary of the specification *)

(** [s] consists of white space only. *)
Definition all_whitespace (s : jsstring) : Prop :=
  Forall (fun c => is_whitespace c = true) s.

(** Two code units are the same Basic Latin letter in either case, or the
    same code unit. *)
Definition differ_in_case_only (a b : N) : Prop :=
  a = b ∨ ((65 ≤ a ≤ 90)%N ∧ b = (a + 32)%N) ∨ ((65 ≤ b ≤ 90)%N ∧ a = (b + 32)%N).

Definition same_up_to_case (s p : jsstring) : Prop :=
  Forall2 differ_in_case_only s p.

(** [text] is the phrase [p] in some casing, with white space around it. *)
Definition variant_of (p text : jsstring) : Prop :=
  ∃ before core after,
    text = before ++ core ++ after
    ∧ all_whitespace before ∧ all_whitespace after ∧ same_up_to_case core p.

(** The glossary [g] has an entry for the phrase [w] in the language [L]:
    a translation that is not the empty string. *)
Definition has_entry (g : glossary) (L w : jsstring) : Prop :=
  ∃ e t, g !! w = Some e ∧ e !! L = Some t ∧ t ≠ [].

(** [g] is the glossary that a resolution with this file works on. *)
Definition in_use (file : glossary_file) (g : glossary) : Prop :=
  loadGlossary file = Return (StoredGlossary g).

(** The phrase key of a text: lowercased, then trimmed. *)
Definition normalized (text : jsstring) : jsstring := trim (toLowerCase text).

(** The last lines of the templates: the three prompts of the automatic
    selection end with the first, the step-by-step prompt with the second. *)
Definition closing_line : jsstring :=
  "Provide only the translated text without any additional explanations or formatting.".

Definition closing_line_of_steps : jsstring :=
  "Please think through this step by step and then provide your final translation.".

(** Reading a finished resolution: whether it is a hit, and a property of
    the result when it is. *)
Definition is_hit (outcome : result (option object)) : bool :=
  match outcome with
  | Return (Some _) => true
  | _ => false
  end.

Definition outcome_field (outcome : result (option object)) (k : jsstring)
  : option value :=
  match outcome with
  | Return (Some r) => r !! k
  | _ => None
  end.

(** A property of what [translate] or [parseTextResponse] returned. *)
Definition response_field (outcome : result object) (k : jsstring)
  : option value :=
  match outcome with
  | Return r => r !! k
  | Throw _ => None
  end.

(** [part] occurs in [whole]. *)
Definition contains (part whole : jsstring) : Prop :=
  ∃ before after, whole = before ++ part ++ after.

(** The first part of the first candidate of what the model returned, when
    every step on the way to it is there. *)
Definition first_part (generated : generation) : option part :=
  response ← generation_response generated;
  candidates ← response_candidates response;
  candidate0 ← list.head candidates;
  content ← candidate_content candidate0;
  parts ← content_parts content;
  list.head parts.

(** The strategies in the order of their cost. *)
Definition rank (c : complexity) : nat :=
  match c with simple => 0 | moderate => 1 | complex => 2 end.

(** [s] has no white space in it. *)
Definition no_whitespace (s : jsstring) : Prop :=
  Forall (fun c => is_whitespace c = false) s.

(** The glossary a resolution works on in a process state, if it is not
    the document [null]. *)
Definition glossary_of (st : store) : option glossary :=
  match loadGlossary_in st with
  | Fresh StoredNull => None
  | Fresh (StoredGlossary g) | TheDefault g => Some g
  end.

(** [s] is empty or starts with a code unit that is no white space. *)
Definition clean_start (s : jsstring) : Prop :=
  match s with
  | [] => True
  | c :: _ => is_whitespace c = false
  end.

(** Every code unit of [s] is its own lower case. *)
Definition lower_stable (s : jsstring) : Prop :=
  Forall (fun c => lower_unit c = c) s.

(** A glossary file with a key that has a capital letter, as a file edited
    by hand may have. *)
Definition capital_key_file : glossary_file :=
  Parsed (StoredGlossary {[ "Hello" := {[ "Spanish" := "hola" ]} ]}).

(** A prompt holds the request: the text between double quotes, the target
    language, and the sentence on the source language. *)
Definition embeds (text L : jsstring) (src : option jsstring)
    (prompt : jsstring) : Prop :=
  contains (quoted text) prompt
  ∧ contains L prompt
  ∧ contains (sourceLangInstruction src) prompt.

(** The five properties that [formatStructuredOutput] computes itself, and
    the eight of a result. *)
Definition computed_fields : list jsstring :=
  [ "timestamp"; "source_language"; "target_language"; "translated_text";
    "status" ].

Definition result_fields : list jsstring :=
  [ "source_language"; "target_language"; "translated_text"; "status";
    "timestamp"; "confidence"; "cultural_notes"; "error" ].

(** ** Own properties and Latin-1

    A glossary is here the finite map of the properties that the glossary
    object and its entries have of their own, and [toLowerCase] is given on
    Basic Latin and Latin-1.  The engine does more in two places: a read
    [o[k]] also finds what every object inherits from [Object.prototype],
    and a write to ['__proto__'] sets no property; and [toLowerCase] lowers
    the capital letters of every script.  What is proved about reads and
    writes at a phrase and a language is therefore stated for names outside
    [object_prototype_names], where a read finds a property exactly when
    the object has it, and, where the phrase of a text matters, for texts
    on which the two lowerings agree. *)

(** The properties that every object inherits from [Object.prototype]. *)
Definition object_prototype_names : list jsstring :=
  [ "constructor"; "hasOwnProperty"; "isPrototypeOf"; "propertyIsEnumerable";
    "toLocaleString"; "toString"; "valueOf"; "__proto__";
    "__defineGetter__"; "__defineSetter__"; "__lookupGetter__";
    "__lookupSetter__" ].

(** [k] is the name of no inherited property. *)
Definition own_name (k : jsstring) : Prop := k ∉ object_prototype_names.

(** Every code unit of [s] is in Basic Latin or Latin-1. *)
Definition latin1 (s : jsstring) : Prop := Forall (fun c => (c < 256)%N) s.



(** ** Words

    The words of a text as a reader counts them: the maximal runs of code
    units that are no white space.  [after_space] says that the previous
    code unit was white space, or that the text starts here. *)
Fixpoint count_words (after_space : bool) (s : jsstring) : nat :=
  match s with
  | [] => 0
  | c :: r =>
    if is_whitespace c then count_words true r
    else ((if after_space then 1 else 0) + count_words false r)%nat
  end.

Definition words (text : jsstring) : nat := count_words true text.

(** One for a text that is empty or starts with white space, and one for
    a text that ends with white space. *)
Definition blank_start (text : jsstring) : nat :=
  match text with
  | [] => 1
  | c :: _ => if is_whitespace c then 1 else 0
  end.

Definition blank_end (text : jsstring) : nat :=
  match list.last text with
  | Some c => if is_whitespace c then 1 else 0
  | None => 0
  end.

(** ** Sample environments *)

(** No glossary file on disk. *)
Definition no_file : glossary_file :=
  ReadError (Error "ENOENT: no such file or directory, open './data/glossary.json'").

Definition clock : jsstring := "2024-01-01T12:00:00.000Z".

(** A glossary file to which [addToGlossary] was given a blank source
    text: its key is the empty phrase. *)
Definition blank_key_file : glossary_file :=
  Parsed (StoredGlossary {[ "" := {[ "Spanish" := "nada" ]} ]}).

(** A glossary file that holds the JSON document [null]. *)
Definition null_file : glossary_file := Parsed StoredNull.

(** A stand-in for [JSON.parse] that knows one document, the empty object,
    and rejects every other text. *)
Definition only_empty_object (s : jsstring) : result object :=
  if decide (s = "{}") then Return ∅
  else Throw (Error "Unexpected token in JSON").

(** The arguments of a function call of the model, with a confidence and
    cultural notes of its own. *)
Definition sample_args : object :=
  object_literal
    [ ("text", VStr "good morning everyone");
      ("sourceLang", VStr "English");
      ("targetLang", VStr "Spanish");
      ("translatedText", VStr "buenos días a todos");
      ("confidence", VNum (Q2Qc (1 # 2)));
      ("culturalNotes", VStr "Informal greeting") ].

(** A response whose first part is the function call with [args]. *)
Definition call_response (args : object) : response :=
  Response None
    (Some [ Candidate (Some (Content (Some
              [ Part (Some (FunctionCall "translate_text" (Some args))) ]))) ])
    (Return "").

(** A response without a function call, with the text [t]. *)
Definition text_response (t : jsstring) : response :=
  Response None
    (Some [ Candidate (Some (Content (Some [ Part None ]))) ])
    (Return t).

(** A model that answers every prompt with [r], and one that fails. *)
Definition model_returning (r : response) (prompt : jsstring)
  : result generation :=
  Return (Generation (Some r)).

Definition model_failing (msg : jsstring) (prompt : jsstring)
  : result generation :=
  Throw (Error msg).

(** A JSON block with the field names of the function schema, and a
    stand-in for [JSON.parse] that knows this one document. *)
Definition schema_block : jsstring :=
  "{" ++ quoted "translatedText" ++ ": " ++ quoted "bonjour" ++ "}".

Definition schema_block_parser (s : jsstring) : result object :=
  if decide (s = schema_block)
  then Return {[ "translatedText" := VStr "bonjour" ]}
  else Throw (Error "Unexpected token in JSON").


(** Five words and a line feed after them. *)
Definition five_words_and_newline : jsstring :=
  "how are you doing today" ++ newline.

(** * Properties *)

(** ** The output normalizer *)

Lemma or_else_truthy v d : truthy d = true -> truthy (or_else v d) = true.
Proof. unfold or_else. by destruct (truthy v) eqn:Hv. Qed.

Lemma or_else_idem v d : or_else (or_else v d) d = or_else v d.
Proof.
  unfold or_else. destruct (truthy v) eqn:Hv.
  - by rewrite Hv.
  - by destruct (truthy d).
Qed.

Lemma or_else_keep v d : truthy v = true -> or_else v d = v.
Proof. unfold or_else. by intros ->. Qed.

(** The fields of a normalized result, one property at a time. *)
Lemma formatStructuredOutput_lookup now data k :
  formatStructuredOutput now data !! k =
    if decide ("status" = k) then
      Some (or_else (get data "status") (VStr "success"))
    else if decide ("translated_text" = k) then
      Some (or_else (get data "translated_text") (VStr ""))
    else if decide ("target_language" = k) then
      Some (or_else (get data "target_language") (VStr ""))
    else if decide ("source_language" = k) then
      Some (or_else (get data "source_language") (VStr "auto-detected"))
    else if decide ("timestamp" = k) then Some (VStr now)
    else (data ∪ DEFAULT_RESPONSE_STRUCTURE) !! k.
Proof.
  unfold formatStructuredOutput, set_fields. simpl.
  by rewrite !lookup_insert.
Qed.

Lemma default_structure_lookup k :
  DEFAULT_RESPONSE_STRUCTURE !! k =
    if decide ("error" = k) then Some VNull
    else if decide ("cultural_notes" = k) then Some (VStr "")
    else if decide ("confidence" = k) then Some (VNum 1)
    else if decide ("timestamp" = k) then Some (VStr "")
    else if decide ("status" = k) then Some (VStr "success")
    else if decide ("translated_text" = k) then Some (VStr "")
    else if decide ("target_language" = k) then Some (VStr "")
    else if decide ("source_language" = k) then Some (VStr "")
    else None.
Proof.
  unfold DEFAULT_RESPONSE_STRUCTURE, object_literal, set_fields. simpl.
  rewrite !lookup_insert. by rewrite lookup_empty.
Qed.

(** Decides the tests [decide (k1 = k2)] on property names of a goal. *)
Ltac decide_keys :=
  repeat (case_decide; simplify_eq; try done).

(** C8. Normalization is idempotent: normalizing a normalized result
    again changes nothing but the timestamp, which becomes the clock
    reading of the second call.  [later] is that reading, [now] the one of
    the first call; [x] is any object, with any properties. *)
Theorem formatStructuredOutput_idempotent (now later : jsstring) (x : object) :
  formatStructuredOutput later (formatStructuredOutput now x)
  = <["timestamp" := VStr later]> (formatStructuredOutput now x).
Proof.
  apply map_eq; intros k.
  rewrite lookup_insert, (formatStructuredOutput_lookup later).
  unfold get at 1 2 3 4.
  rewrite !(formatStructuredOutput_lookup now). simpl.
  repeat case_decide; simplify_eq; simpl;
    rewrite ?or_else_idem; try done.
  rewrite lookup_union, (formatStructuredOutput_lookup now).
  repeat case_decide; simplify_eq.
  rewrite lookup_union.
  destruct (x !! k) as [v|] eqn:Hx; simpl;
    by destruct (DEFAULT_RESPONSE_STRUCTURE !! k).
Qed.

(** ** Strings *)

Lemma is_whitespace_spec c :
  is_whitespace c = true ↔
  ((9 ≤ c ≤ 13) ∨ c = 32 ∨ c = 160 ∨ c = 5760 ∨ (8192 ≤ c ≤ 8202)
   ∨ c = 8232 ∨ c = 8233 ∨ c = 8239 ∨ c = 8287 ∨ c = 12288 ∨ c = 65279)%N.
Proof.
  unfold is_whitespace.
  rewrite !orb_true_iff, !andb_true_iff, !N.leb_le, !N.eqb_eq. tauto.
Qed.

Lemma lower_unit_whitespace c : is_whitespace c = true -> lower_unit c = c.
Proof.
  rewrite is_whitespace_spec. intros H. unfold lower_unit.
  destruct ((65 <=? c)%N && (c <=? 90)%N) eqn:E1.
  { apply andb_true_iff in E1 as [?%N.leb_le ?%N.leb_le]. lia. }
  destruct ((192 <=? c)%N && (c <=? 222)%N && negb (c =? 215)%N) eqn:E2;
    [|done].
  apply andb_true_iff in E2 as [[?%N.leb_le ?%N.leb_le]%andb_true_iff _]. lia.
Qed.

Lemma toLowerCase_whitespace s : all_whitespace s -> toLowerCase s = s.
Proof.
  induction 1 as [|c s Hc _ IH]; [done|].
  simpl. by rewrite lower_unit_whitespace, IH.
Qed.

Lemma trimStart_whitespace ws s :
  all_whitespace ws -> trimStart (ws ++ s) = trimStart s.
Proof. induction 1 as [|c ws Hc _ IH]; [done|]. simpl. by rewrite Hc. Qed.

Lemma trimStart_all_whitespace ws : all_whitespace ws -> trimStart ws = [].
Proof.
  intros H. rewrite <- (app_nil_r ws). by rewrite trimStart_whitespace.
Qed.

Lemma trimEnd_whitespace s ws :
  all_whitespace ws -> trimEnd (s ++ ws) = trimEnd s.
Proof.
  intros H. unfold trimEnd. rewrite rev_app_distr, trimStart_whitespace; [done|].
  by apply Forall_rev.
Qed.

Lemma trim_whitespace_after s ws :
  all_whitespace ws -> trim (s ++ ws) = trim s.
Proof.
  intros H. unfold trim. induction s as [|c s IH]; simpl.
  - by rewrite trimStart_all_whitespace.
  - destruct (is_whitespace c); [done|].
    by apply (trimEnd_whitespace (c :: s)).
Qed.

Lemma trim_surrounded before s after :
  all_whitespace before -> all_whitespace after ->
  trim (before ++ s ++ after) = trim s.
Proof.
  intros Hb Ha. rewrite app_assoc, trim_whitespace_after by done.
  unfold trim. by rewrite trimStart_whitespace.
Qed.

Lemma toLowerCase_same_up_to_case s p :
  same_up_to_case s p -> toLowerCase p = p -> toLowerCase s = p.
Proof.
  induction 1 as [|a b s p Hab _ IH]; [done|].
  simpl. intros [= Hb Hp]. f_equal; [|by apply IH].
  destruct Hab as [->|[[Ha ->]|[Hb' ->]]]; [done| |].
  - unfold lower_unit.
    destruct ((65 <=? a)%N && (a <=? 90)%N) eqn:E; [done|].
    apply andb_false_iff in E as [?%N.leb_gt|?%N.leb_gt]; lia.
  - exfalso. revert Hb. unfold lower_unit.
    destruct ((65 <=? b)%N && (b <=? 90)%N) eqn:E; [lia|].
    apply andb_false_iff in E as [?%N.leb_gt|?%N.leb_gt]; lia.
Qed.

(** A variant of a normalized phrase normalizes to the phrase. *)
Lemma normalized_variant p text :
  variant_of p text -> normalized p = p -> toLowerCase p = p ->
  normalized text = p.
Proof.
  intros (before & core & after & -> & Hb & Ha & Hc) Hn Hl.
  unfold normalized, toLowerCase. rewrite !map_app.
  fold (toLowerCase before) (toLowerCase core) (toLowerCase after).
  rewrite (toLowerCase_whitespace before), (toLowerCase_whitespace after),
    (toLowerCase_same_up_to_case core p) by done.
  rewrite trim_surrounded by done.
  unfold normalized in Hn. by rewrite Hl in Hn.
Qed.

(** ** The retrieval resolver *)

Lemma forallb_Forall {A} (f : A -> bool) l :
  forallb f l = true ↔ Forall (fun x => f x = true) l.
Proof.
  induction l as [|x l IH]; simpl.
  - split; [by constructor|done].
  - rewrite andb_true_iff, IH. split.
    + intros [??]. by constructor.
    + by inversion 1.
Qed.

Lemma has_translation_entry g L w :
  has_translation g w L = true ↔ has_entry g L w.
Proof.
  unfold has_translation, translation, has_entry. split.
  - destruct (g !! w) as [e|] eqn:He; simpl; [|done].
    destruct (e !! L) as [[|c t]|] eqn:Ht; [done| |done].
    intros _. by exists e, (c :: t).
  - intros (e & t & -> & Ht & Hne). simpl. rewrite Ht. by destruct t.
Qed.

Lemma has_translation_no_entry g L w :
  has_translation g w L = false ↔ ¬ has_entry g L w.
Proof.
  rewrite <- has_translation_entry. by destruct (has_translation g w L).
Qed.

Lemma has_entry_translation g L w :
  has_entry g L w -> ∃ t, translation g w L = Some t ∧ t ≠ [].
Proof.
  intros (e & t & He & Ht & Hne). exists t. split; [|done].
  unfold translation. by rewrite He.
Qed.

Lemma result_bind_Return {A B} (a : A) (k : A -> result B) :
  Return a ≫= k = k a.
Proof. reflexivity. Qed.

Lemma exact_hit_fields now t s l :
  let r := createSuccessResponse now t s l
    (object_literal
       [ ("confidence", VNum 1);
         ("cultural_notes", VStr "Retrieved from local glossary");
         ("source", VStr "rag") ]) in
  r !! "status" = Some (VStr "success")
  ∧ r !! "confidence" = Some (VNum 1)
  ∧ r !! "translated_text" = Some (VStr t)
  ∧ r !! "target_language" = Some (VStr l)
  ∧ r !! "source_language" = Some (VStr (or_string (Some s) "auto-detected"))
  ∧ r !! "error" = Some VNull.
Proof.
  simpl. unfold createSuccessResponse.
  repeat split; rewrite formatStructuredOutput_lookup;
    destruct t, s, l; vm_compute; reflexivity.
Qed.


(** An exact hit: what [checkRAG] returns. *)
Lemma checkRAG_exact file now g text L src :
  in_use file g -> has_entry g L (normalized text) ->
  ∃ r t, checkRAG file now text L src = Return (Some r)
    ∧ translation g (normalized text) L = Some t
    ∧ r !! "status" = Some (VStr "success")
    ∧ r !! "confidence" = Some (VNum 1)
    ∧ r !! "translated_text" = Some (VStr t)
    ∧ r !! "source_language" = Some (VStr (or_string src "auto-detected")).
Proof.
  intros Hin Hhas.
  destruct (has_entry_translation _ _ _ Hhas) as (t & Ht & _).
  apply has_translation_entry in Hhas.
  pose proof (exact_hit_fields now t (or_string src "auto-detected") L) as Hf.
  cbv zeta in Hf.
  set (r := createSuccessResponse now t _ L _) in Hf.
  destruct Hf as (H1 & H2 & H3 & _ & H5 & _).
  exists r, t. split.
  { unfold checkRAG, checkRAG_body. rewrite Hin, result_bind_Return.
    fold (normalized text). rewrite Hhas, Ht. reflexivity. }
  split; [exact Ht|]. split; [exact H1|]. split; [exact H2|].
  split; [exact H3|]. rewrite H5. clear. by destruct src as [[|]|].
Qed.

(** No exact hit: [checkRAG] returns what [findPartialMatch] returns. *)
Lemma checkRAG_fallback file now g text L src :
  in_use file g -> ¬ has_entry g L (normalized text) ->
  checkRAG file now text L src
  = Return (findPartialMatch now (normalized text) L g).
Proof.
  intros Hin Hno. apply has_translation_no_entry in Hno.
  unfold checkRAG, checkRAG_body. rewrite Hin, result_bind_Return.
  fold (normalized text). rewrite Hno.
  destruct (findPartialMatch now (normalized text) L g); reflexivity.
Qed.




(** The keys and the translations of the default glossary: every key is
    its own normal form and no translation is empty. *)
Lemma DEFAULT_GLOSSARY_entries P L t :
  translation DEFAULT_GLOSSARY P L = Some t ->
  normalized P = P ∧ toLowerCase P = P ∧ t ≠ [].
Proof.
  unfold translation.
  destruct (DEFAULT_GLOSSARY !! P) as [e|] eqn:HP; [simpl|done]. intros HL.
  assert (map_Forall (fun P e =>
            (normalized P = P ∧ toLowerCase P = P)
            ∧ map_Forall (fun (L t : jsstring) => t ≠ []) e)
          DEFAULT_GLOSSARY) as H.
  { apply (bool_decide_unpack _). vm_compute. exact I. }
  destruct (H _ _ HP) as [[H1 H2] H3]. split; [exact H1|]. split; [exact H2|].
  exact (H3 _ _ HL).
Qed.

Lemma translation_entry g P L t :
  translation g P L = Some t -> t ≠ [] -> has_entry g L P.
Proof.
  unfold translation, has_entry.
  destruct (g !! P) as [e|]; [simpl|done]. intros Ht Hne. by exists e, t.
Qed.

Lemma normalized_whitespace text : all_whitespace text -> normalized text = "".
Proof.
  intros H. unfold normalized, trim.
  by rewrite toLowerCase_whitespace, trimStart_all_whitespace.
Qed.

(** What a concrete outcome holds, read off by evaluation. *)
Lemma outcome_field_Some outcome k v :
  outcome_field outcome k = Some v ->
  ∃ r, outcome = Return (Some r) ∧ r !! k = Some v.
Proof. destruct outcome as [[r|]|]; [|done..]. intros H. by exists r. Qed.

Lemma is_hit_not_miss outcome : is_hit outcome = true -> outcome ≠ Return None.
Proof. by intros H ->. Qed.

(** Deciding a closed statement about names and code units. *)
Ltac by_evaluation := apply (bool_decide_unpack _); vm_compute; exact I.







(** C4. With the built-in default glossary in use, every phrase [P] of
    it and every language [L] stored for [P], with translation [t],
    resolve to [t] with status success and confidence 1.0 from every text
    that is [P] in some casing with white space around it; so "hello"
    resolves to "hola" in Spanish. *)
Theorem default_glossary_hit file now src :
  in_use file DEFAULT_GLOSSARY ->
  (∀ P L t text,
     translation DEFAULT_GLOSSARY P L = Some t -> variant_of P text ->
     ∃ r, checkRAG file now text L src = Return (Some r)
       ∧ r !! "status" = Some (VStr "success")
       ∧ r !! "confidence" = Some (VNum 1)
       ∧ r !! "translated_text" = Some (VStr t))
  ∧ (∃ r, checkRAG file now "hello" "Spanish" src = Return (Some r)
       ∧ r !! "status" = Some (VStr "success")
       ∧ r !! "confidence" = Some (VNum 1)
       ∧ r !! "translated_text" = Some (VStr "hola")).
Proof.
  intros Hin.
  assert (∀ P L t text,
     translation DEFAULT_GLOSSARY P L = Some t -> variant_of P text ->
     ∃ r, checkRAG file now text L src = Return (Some r)
       ∧ r !! "status" = Some (VStr "success")
       ∧ r !! "confidence" = Some (VNum 1)
       ∧ r !! "translated_text" = Some (VStr t)) as Hall.
  { intros P L t text Ht Hvar.
    destruct (DEFAULT_GLOSSARY_entries P L t Ht) as (Hn & Hl & Hne).
    pose proof (normalized_variant P text Hvar Hn Hl) as Hnorm.
    assert (has_entry DEFAULT_GLOSSARY L (normalized text)) as Hhas.
    { rewrite Hnorm. by apply (translation_entry _ _ _ t). }
    destruct (checkRAG_exact file now _ text L src Hin Hhas)
      as (r & t' & Hr & Ht' & H1 & H2 & H3 & _).
    rewrite Hnorm, Ht in Ht'. injection Ht' as <-.
    exists r. split; [exact Hr|]. split; [exact H1|]. split; [exact H2|].
    exact H3. }
  split; [exact Hall|].
  apply (Hall "hello"); [vm_compute; reflexivity|].
  exists [], "hello", []. split; [reflexivity|].
  split; [constructor|]. split; [constructor|].
  repeat (constructor; [by left|]). constructor.
Qed.

Lemma default_glossary_hit_witness :
  ∃ r, checkRAG no_file clock "  Thank YOU  " "German" None = Return (Some r)
    ∧ r !! "status" = Some (VStr "success")
    ∧ r !! "confidence" = Some (VNum 1)
    ∧ r !! "translated_text" = Some (VStr "danke").
Proof.
  destruct (default_glossary_hit no_file clock None eq_refl) as [H _].
  apply (H "thank you"); [vm_compute; reflexivity|].
  exists "  ", "Thank YOU", "  ". split; [reflexivity|].
  split; [by repeat constructor|]. split; [by repeat constructor|].
  unfold same_up_to_case, differ_in_case_only.
  repeat (constructor; [lia|]). constructor.
Defined.

(** C9, as the code has it.  [checkRAG] never throws.  A failure to read
    or to parse the glossary file is swallowed inside [loadGlossary] by
    falling back to the default glossary, on which the resolution goes on
    (and may hit); an error thrown in the resolution itself is swallowed
    and gives a miss.  Empty and white-space-only text is a miss for every
    target language whenever the glossary in use has no key for the empty
    phrase, as is the case for the default glossary. *)
Theorem resolver_never_blocks file now text L src :
  (∃ outcome, checkRAG file now text L src = Return outcome)
  ∧ (∀ e, checkRAG_body file now text L src = Throw e ->
          checkRAG file now text L src = Return None)
  ∧ ((∃ e, file = ReadError e ∨ file = ParseError e) ->
       checkRAG file now text L src
       = checkRAG (Parsed (StoredGlossary DEFAULT_GLOSSARY)) now text L src)
  ∧ (∀ g, in_use file g -> all_whitespace text -> g !! "" = None ->
          checkRAG file now text L src = Return None)
  ∧ (in_use file DEFAULT_GLOSSARY -> all_whitespace text ->
       checkRAG file now text L src = Return None).
Proof.
  assert (∀ g, in_use file g -> all_whitespace text -> g !! "" = None ->
            checkRAG file now text L src = Return None) as Hblank.
  { intros g Hin Hws Hkey.
    assert (¬ has_entry g L "") as Hno.
    { intros (e & t & He & _). rewrite Hkey in He. discriminate He. }
    pose proof (normalized_whitespace text Hws) as Hn.
    rewrite (checkRAG_fallback file now g text L src Hin); [|by rewrite Hn].
    rewrite Hn. unfold findPartialMatch.
    change (split_whitespace "") with [@nil N].
    apply has_translation_no_entry in Hno. simpl forallb. by rewrite Hno. }
  split.
  { unfold checkRAG.
    destruct (checkRAG_body file now text L src) as [outcome|e]; simpl; eauto. }
  split; [intros e He; unfold checkRAG; by rewrite He|].
  split; [intros [e [-> | ->]]; reflexivity|].
  split; [exact Hblank|].
  intros Hin Hws. apply (Hblank DEFAULT_GLOSSARY Hin Hws).
  vm_compute. reflexivity.
Qed.

Lemma resolver_never_blocks_witness :
  (∃ e, checkRAG_body null_file clock "hello" "Spanish" None = Throw e)
  ∧ checkRAG null_file clock "hello" "Spanish" None = Return None
  ∧ checkRAG no_file clock "hello" "Spanish" None
    = checkRAG (Parsed (StoredGlossary DEFAULT_GLOSSARY)) clock
        "hello" "Spanish" None
  ∧ checkRAG (Parsed (StoredGlossary ∅)) clock "  " "Spanish" None
    = Return None
  ∧ checkRAG no_file clock "" "Spanish" None = Return None.
Proof.
  split; [eexists; reflexivity|].
  split.
  { destruct (resolver_never_blocks null_file clock "hello" "Spanish" None)
      as (_ & H & _).
    eapply H. reflexivity. }
  split.
  { destruct (resolver_never_blocks no_file clock "hello" "Spanish" None)
      as (_ & _ & H & _).
    apply H. eexists. left. reflexivity. }
  split.
  { destruct (resolver_never_blocks (Parsed (StoredGlossary ∅)) clock
                "  " "Spanish" None) as (_ & _ & _ & H & _).
    apply (H ∅); [reflexivity|by repeat constructor|reflexivity]. }
  destruct (resolver_never_blocks no_file clock "" "Spanish" None)
    as (_ & _ & _ & _ & H).
  apply H; [reflexivity|constructor].
Defined.

(** C9 as stated fails twice.  With no readable glossary file, a storage
    read failure, "hello" still resolves to a hit in Spanish, not to a
    miss; and with a glossary file that has an entry for the empty phrase,
    the empty text is a hit. *)
Lemma resolver_miss_counterexample :
  (read_and_parse no_file
   = Throw (Error "ENOENT: no such file or directory, open './data/glossary.json'")
   ∧ checkRAG no_file clock "hello" "Spanish" None ≠ Return None
   ∧ outcome_field (checkRAG no_file clock "hello" "Spanish" None)
       "translated_text" = Some (VStr "hola"))
  ∧ (checkRAG blank_key_file clock "" "Spanish" None ≠ Return None
     ∧ outcome_field (checkRAG blank_key_file clock "" "Spanish" None)
         "translated_text" = Some (VStr "nada")).
Proof.
  split; [split; [reflexivity|split]|split].
  - apply is_hit_not_miss. vm_compute. reflexivity.
  - vm_compute. reflexivity.
  - apply is_hit_not_miss. vm_compute. reflexivity.
  - vm_compute. reflexivity.
Qed.

(** ** The complexity classifier and the prompt selection *)

(** The number of pieces of [split], from a position on: the words that
    start later, one more piece, and one for white space at the end. *)
Lemma split_go_length in_run acc s :
  (length (split_go in_run acc s) + (if in_run then 1 else 0)
   = count_words in_run s + 1
     + match list.last s with
       | Some c => if is_whitespace c then 1 else 0
       | None => if in_run then 1 else 0
       end)%nat.
Proof.
  revert in_run acc. induction s as [|c r IH]; intros in_run acc.
  - simpl. by destruct in_run.
  - rewrite last_cons. cbn [split_go count_words].
    destruct (is_whitespace c) eqn:Hc.
    + destruct in_run.
      * rewrite (IH true acc). destruct (list.last r); rewrite ?Hc; lia.
      * cbn [length]. pose proof (IH true []) as H.
        destruct (list.last r); rewrite ?Hc; lia.
    + pose proof (IH false (c :: acc)) as H.
      destruct in_run, (list.last r); rewrite ?Hc; lia.
Qed.

(** [text.split(/\s+/).length] in words: the words of the text, one more
    when the text is empty or starts with white space, and one more when
    it ends with white space. *)
Lemma wordCount_words text :
  wordCount text = (words text + blank_start text + blank_end text)%nat.
Proof.
  unfold wordCount, split_whitespace, words, blank_end.
  pose proof (split_go_length false [] text) as H.
  assert (count_words true text + blank_start text
          = count_words false text + 1)%nat as Hw.
  { destruct text as [|c r]; [reflexivity|]. simpl.
    destruct (is_whitespace c); lia. }
  destruct (list.last text); lia.
Qed.

(** C5, as the code has it.  The classifier tries its rules in order and
    the first that applies decides: a count of at most 5, no idiom and no
    special character give [simple] and the zero-shot prompt; failing that,
    a count of at most 15 and no idiom give [moderate] and the one-shot
    prompt; every other text is [complex] and gets the multi-shot prompt.
    The count is the number of pieces of the text split at white space,
    [wordCount]: the words of the text, one more when the text is empty or
    starts with white space, and one more when it ends with white space. *)
Theorem classifier_first_match text L src :
  let count := (words text + blank_start text + blank_end text)%nat in
  let minimal :=
    (count ≤ 5)%nat ∧ hasIdioms text = false
    ∧ hasSpecialChars text = false in
  let single_example := (count ≤ 15)%nat ∧ hasIdioms text = false in
  wordCount text = count
  ∧ (minimal ->
     analyzeTextComplexity text = simple
     ∧ getTranslationPrompt text L src = getZeroShotPrompt text L src)
  ∧ (¬ minimal -> single_example ->
     analyzeTextComplexity text = moderate
     ∧ getTranslationPrompt text L src = getOneShotPrompt text L src)
  ∧ (¬ minimal -> ¬ single_example ->
     analyzeTextComplexity text = complex
     ∧ getTranslationPrompt text L src = getMultiShotPrompt text L src).
Proof.
  intros count minimal single_example.
  subst count minimal single_example.
  split; [apply wordCount_words|].
  rewrite <- wordCount_words.
  unfold getTranslationPrompt, analyzeTextComplexity.
  destruct (decide (wordCount text ≤ 5)%nat) as [H5|H5];
    destruct (decide (wordCount text ≤ 15)%nat) as [H15|H15];
    rewrite ?(bool_decide_true _ H5), ?(bool_decide_false _ H5),
      ?(bool_decide_true _ H15), ?(bool_decide_false _ H15);
    destruct (hasIdioms text), (hasSpecialChars text); simpl;
    intuition (try done; try lia).
Qed.

(** Five words are simple and six are moderate; fifteen words are moderate
    and sixteen are complex; a special character makes two words moderate
    and an idiom makes three words complex. *)
Lemma classifier_first_match_witness :
  (analyzeTextComplexity "where is the train station" = simple
   ∧ getTranslationPrompt "where is the train station" "French" None
     = getZeroShotPrompt "where is the train station" "French" None)
  ∧ (analyzeTextComplexity "where is the next train station" = moderate
     ∧ getTranslationPrompt "where is the next train station" "French" None
       = getOneShotPrompt "where is the next train station" "French" None)
  ∧ (analyzeTextComplexity
       "a b c d e f g h i j k l m n o" = moderate
     ∧ analyzeTextComplexity
         "a b c d e f g h i j k l m n o p" = complex
     ∧ getTranslationPrompt "a b c d e f g h i j k l m n o p" "French" None
       = getMultiShotPrompt "a b c d e f g h i j k l m n o p" "French" None)
  ∧ (analyzeTextComplexity "50% off" = moderate
     ∧ analyzeTextComplexity "The Early Bird" = complex).
Proof.
  split; [|split; [|split; [split; [|split]|split]]].
  - destruct (classifier_first_match "where is the train station"
                "French" None) as (_ & H & _).
    apply H. repeat split; [cbv; lia|by vm_compute..].
  - destruct (classifier_first_match "where is the next train station"
                "French" None) as (_ & _ & H & _).
    apply H; [|split; [cbv; lia|by vm_compute]].
    intros (Hc & _). vm_compute in Hc. lia.
  - destruct (classifier_first_match "a b c d e f g h i j k l m n o"
                "French" None) as (_ & _ & H & _).
    apply H; [|split; [cbv; lia|by vm_compute]].
    intros (Hc & _). vm_compute in Hc. lia.
  - destruct (classifier_first_match "a b c d e f g h i j k l m n o p"
                "French" None) as (_ & _ & _ & H).
    apply H.
    + intros (Hc & _). vm_compute in Hc. lia.
    + intros (Hc & _). vm_compute in Hc. lia.
  - destruct (classifier_first_match "a b c d e f g h i j k l m n o p"
                "French" None) as (_ & _ & _ & H).
    apply H.
    + intros (Hc & _). vm_compute in Hc. lia.
    + intros (Hc & _). vm_compute in Hc. lia.
  - destruct (classifier_first_match "50% off" "French" None)
      as (_ & _ & H & _).
    apply H; [|split; [cbv; lia|by vm_compute]].
    intros (_ & _ & Hs). by vm_compute in Hs.
  - destruct (classifier_first_match "The Early Bird" "French" None)
      as (_ & _ & _ & H).
    apply H.
    + intros (_ & Hi & _). by vm_compute in Hi.
    + intros (_ & Hi). by vm_compute in Hi.
Defined.

(** C5 as stated fails for a text that ends with white space: this one
    has five words, no idiom and no special character, and it is classified
    [moderate] and gets the one-shot prompt, because the split at white
    space leaves a sixth, empty piece after the line feed. *)
Lemma five_words_counterexample :
  words five_words_and_newline = 5%nat
  ∧ hasIdioms five_words_and_newline = false
  ∧ hasSpecialChars five_words_and_newline = false
  ∧ wordCount five_words_and_newline = 6%nat
  ∧ analyzeTextComplexity five_words_and_newline = moderate
  ∧ analyzeTextComplexity five_words_and_newline ≠ simple
  ∧ getTranslationPrompt five_words_and_newline "French" None
    = getOneShotPrompt five_words_and_newline "French" None.
Proof.
  assert (analyzeTextComplexity five_words_and_newline = moderate) as H
    by (vm_compute; reflexivity).
  split; [vm_compute; reflexivity|]. split; [vm_compute; reflexivity|].
  split; [vm_compute; reflexivity|]. split; [vm_compute; reflexivity|].
  split; [exact H|]. split; [rewrite H; discriminate|].
  unfold getTranslationPrompt. rewrite H. reflexivity.
Qed.

(** The last line of a template ends the prompt. *)
Lemma lines_last (l : list jsstring) x :
  list.last l = Some x -> ∃ pre, lines l = pre ++ x.
Proof.
  unfold lines. induction l as [|y l IH]; [done|].
  destruct l as [|z l].
  - intros [= ->]. by exists [].
  - intros H. destruct (IH H) as [pre Hpre].
    exists (y ++ newline ++ pre).
    change (join newline (y :: z :: l))
      with (y ++ newline ++ join newline (z :: l)).
    by rewrite Hpre, <- !app_assoc.
Qed.

Lemma closing_lines_differ pre pre' :
  pre ++ closing_line ≠ pre' ++ closing_line_of_steps.
Proof.
  intros H. apply (f_equal (@rev N)) in H. rewrite !rev_app_distr in H.
  unfold closing_line, closing_line_of_steps in H. simpl in H.
  discriminate H.
Qed.

Lemma getZeroShotPrompt_closing text L src :
  ∃ pre, getZeroShotPrompt text L src = pre ++ closing_line.
Proof. unfold getZeroShotPrompt. apply lines_last. reflexivity. Qed.

Lemma getOneShotPrompt_closing text L src :
  ∃ pre, getOneShotPrompt text L src = pre ++ closing_line.
Proof. unfold getOneShotPrompt. apply lines_last. reflexivity. Qed.

Lemma getMultiShotPrompt_closing text L src :
  ∃ pre, getMultiShotPrompt text L src = pre ++ closing_line.
Proof. unfold getMultiShotPrompt. apply lines_last. reflexivity. Qed.

Lemma getChainOfThoughtPrompt_closing text L src :
  ∃ pre, getChainOfThoughtPrompt text L src = pre ++ closing_line_of_steps.
Proof. unfold getChainOfThoughtPrompt. apply lines_last. reflexivity. Qed.

Lemma getTranslationPrompt_closing text L src :
  ∃ pre, getTranslationPrompt text L src = pre ++ closing_line.
Proof.
  unfold getTranslationPrompt.
  destruct (analyzeTextComplexity text);
    [apply getZeroShotPrompt_closing | apply getOneShotPrompt_closing
    | apply getMultiShotPrompt_closing].
Qed.

Lemma getPromptByStrategy_closing text L src strategy :
  ∃ pre, getPromptByStrategy text L src strategy = pre ++ closing_line.
Proof.
  unfold getPromptByStrategy. repeat case_decide;
    [apply getZeroShotPrompt_closing | apply getOneShotPrompt_closing
    | apply getMultiShotPrompt_closing | apply getTranslationPrompt_closing].
Qed.

(** C6, as the code has it.  The step-by-step prompt is produced neither
    by the automatic selection nor by the override entry point
    [getPromptByStrategy], whatever strategy name it is given: that
    function knows the names zero, one and multi and hands every other name
    to the automatic selection.  The prompts compared may even be for
    different texts and languages. *)
Theorem chain_of_thought_not_selected text L src strategy text' L' src' :
  getTranslationPrompt text L src ≠ getChainOfThoughtPrompt text' L' src'
  ∧ getPromptByStrategy text L src strategy
    ≠ getChainOfThoughtPrompt text' L' src'.
Proof.
  destruct (getChainOfThoughtPrompt_closing text' L' src') as [pre' ->].
  split.
  - destruct (getTranslationPrompt_closing text L src) as [pre ->].
    apply closing_lines_differ.
  - destruct (getPromptByStrategy_closing text L src strategy) as [pre ->].
    apply closing_lines_differ.
Qed.

(** C6 as stated fails in its second half: no strategy name makes the
    override entry point return the step-by-step prompt; asked for it by
    name, it returns what the automatic selection returns. *)
Lemma chain_of_thought_override_counterexample :
  ¬ (∃ strategy text L src,
       getPromptByStrategy text L src strategy
       = getChainOfThoughtPrompt text L src)
  ∧ getPromptByStrategy "It's a piece of cake" "Spanish" (Some "English")
      "chainOfThought"
    = getZeroShotPrompt "It's a piece of cake" "Spanish" (Some "English").
Proof.
  split; [|vm_compute; reflexivity].
  intros (strategy & text & L & src & H).
  destruct (getPromptByStrategy_closing text L src strategy) as [pre Hp].
  destruct (getChainOfThoughtPrompt_closing text L src) as [pre' Hc].
  rewrite Hp, Hc in H. by apply closing_lines_differ in H.
Qed.

(** ** The response interpreter and [translate] *)

Lemma bind_Return_inv {A B} (m : result A) (k : A -> result B) r :
  m ≫= k = Return r -> ∃ a, m = Return a ∧ k a = Return r.
Proof. destruct m as [a|e]; [|done]. intros H. by exists a. Qed.

(** The fields of a result built from four or five given fields. *)
Lemma outcome_fields now s l t st :
  s ≠ [] -> st ≠ [] ->
  let r := formatStructuredOutput now
    (object_literal
       [ ("source_language", VStr s);
         ("target_language", VStr l);
         ("translated_text", VStr t);
         ("status", VStr st) ]) in
  r !! "status" = Some (VStr st)
  ∧ r !! "translated_text" = Some (VStr t)
  ∧ r !! "target_language" = Some (VStr l)
  ∧ r !! "source_language" = Some (VStr s)
  ∧ r !! "error" = Some VNull
  ∧ r !! "confidence" = Some (VNum 1)
  ∧ r !! "cultural_notes" = Some (VStr "").
Proof.
  intros Hs Hst. simpl.
  repeat split; rewrite formatStructuredOutput_lookup;
    destruct s, l, t, st; try done; vm_compute; reflexivity.
Qed.

Lemma failure_fields now s l t st msg :
  s ≠ [] -> st ≠ [] ->
  let r := formatStructuredOutput now
    (object_literal
       [ ("source_language", VStr s);
         ("target_language", VStr l);
         ("translated_text", VStr t);
         ("status", VStr st);
         ("error", VStr msg) ]) in
  r !! "status" = Some (VStr st)
  ∧ r !! "translated_text" = Some (VStr t)
  ∧ r !! "target_language" = Some (VStr l)
  ∧ r !! "source_language" = Some (VStr s)
  ∧ r !! "error" = Some (VStr msg)
  ∧ r !! "confidence" = Some (VNum 1).
Proof.
  intros Hs Hst. simpl.
  repeat split; rewrite formatStructuredOutput_lookup;
    destruct s, l, t, st; try done; vm_compute; reflexivity.
Qed.

Lemma or_string_nonempty src d : d ≠ [] -> or_string src d ≠ [].
Proof. intros Hd. by destruct src as [[|]|]. Qed.

(** C1, as the code has it.  When the response text has no brace span,
    [parseTextResponse] returns the trimmed text with the target language
    of the request and its source language (or "auto-detected"), with
    status success and no error; when a span is found and [JSON.parse]
    throws on it, it returns the trimmed text with the target language of
    the request and its source language (or "unknown"), with status
    partial_success and the note that structured parsing failed. *)
Theorem parseTextResponse_fallback
    (JSON_parse : jsstring -> result object) now response L src :
  (match_braces response = None ->
     ∃ r, parseTextResponse JSON_parse now response L src = Return r
       ∧ r !! "translated_text" = Some (VStr (trim response))
       ∧ r !! "target_language" = Some (VStr L)
       ∧ r !! "source_language" = Some (VStr (or_string src "auto-detected"))
       ∧ r !! "status" = Some (VStr "success")
       ∧ r !! "error" = Some VNull)
  ∧ (∀ span e,
       match_braces response = Some span -> JSON_parse span = Throw e ->
       ∃ r, parseTextResponse JSON_parse now response L src = Return r
         ∧ r !! "translated_text" = Some (VStr (trim response))
         ∧ r !! "target_language" = Some (VStr L)
         ∧ r !! "source_language" = Some (VStr (or_string src "unknown"))
         ∧ r !! "status" = Some (VStr "partial_success")
         ∧ r !! "error"
           = Some (VStr "Failed to parse structured response")).
Proof.
  split.
  - intros Hnone.
    pose proof (outcome_fields now (or_string src "auto-detected") L
                  (trim response) "success") as Hf.
    cbv zeta in Hf.
    set (r := formatStructuredOutput now _) in Hf.
    destruct Hf as (H1 & H2 & H3 & H4 & H5 & _);
      [by apply or_string_nonempty|done|].
    exists r. split; [unfold parseTextResponse; rewrite Hnone; reflexivity|].
    split; [exact H2|]. split; [exact H3|]. split; [exact H4|].
    split; [exact H1|exact H5].
  - intros span e Hspan Hthrow.
    pose proof (failure_fields now (or_string src "unknown") L
                  (trim response) "partial_success"
                  "Failed to parse structured response") as Hf.
    cbv zeta in Hf.
    set (r := formatStructuredOutput now _) in Hf.
    destruct Hf as (H1 & H2 & H3 & H4 & H5 & _);
      [by apply or_string_nonempty|done|].
    exists r. split.
    { unfold parseTextResponse. rewrite Hspan, Hthrow. reflexivity. }
    split; [exact H2|]. split; [exact H3|]. split; [exact H4|].
    split; [exact H1|exact H5].
Qed.

Lemma parseTextResponse_fallback_witness :
  (∃ r, parseTextResponse only_empty_object clock "  plugh xyzzy " "French"
          (Some "English") = Return r
      ∧ r !! "translated_text" = Some (VStr "plugh xyzzy")
      ∧ r !! "status" = Some (VStr "success"))
  ∧ (∃ r, parseTextResponse only_empty_object clock
            "Sure: {translation: bonjour} " "French" None = Return r
      ∧ r !! "translated_text" = Some (VStr "Sure: {translation: bonjour}")
      ∧ r !! "source_language" = Some (VStr "unknown")
      ∧ r !! "status" = Some (VStr "partial_success")).
Proof.
  split.
  - destruct (parseTextResponse_fallback only_empty_object clock
                "  plugh xyzzy " "French" (Some "English")) as [H _].
    destruct H as (r & Hr & Ht & _ & _ & Hs & _); [reflexivity|].
    exists r. split; [exact Hr|]. split; [exact Ht|exact Hs].
  - destruct (parseTextResponse_fallback only_empty_object clock
                "Sure: {translation: bonjour} " "French" None) as [_ H].
    destruct (H "{translation: bonjour}" (Error "Unexpected token in JSON"))
      as (r & Hr & Ht & _ & Hsrc & Hs & _); [reflexivity..|].
    exists r. split; [exact Hr|]. split; [exact Ht|].
    split; [exact Hsrc|exact Hs].
Defined.

(** C1 as stated fails when no brace span is found: the raw text
    "plugh xyzzy" comes back with status success and no error, not with
    partial_success and a note. *)
Lemma raw_text_counterexample :
  match_braces "plugh xyzzy" = None
  ∧ response_field
      (parseTextResponse only_empty_object clock "plugh xyzzy" "French" None)
      "status" = Some (VStr "success")
  ∧ response_field
      (parseTextResponse only_empty_object clock "plugh xyzzy" "French" None)
      "status" ≠ Some (VStr "partial_success")
  ∧ response_field
      (parseTextResponse only_empty_object clock "plugh xyzzy" "French" None)
      "error" = Some VNull.
Proof.
  assert (response_field
      (parseTextResponse only_empty_object clock "plugh xyzzy" "French" None)
      "status" = Some (VStr "success")) as Hs by (vm_compute; reflexivity).
  split; [reflexivity|]. split; [exact Hs|].
  split; [rewrite Hs; discriminate|]. vm_compute. reflexivity.
Qed.

Lemma parseTextResponse_formatted
    (JSON_parse : jsstring -> result object) now response L src :
  ∃ data, parseTextResponse JSON_parse now response L src
          = Return (formatStructuredOutput now data).
Proof.
  unfold parseTextResponse.
  destruct (match_braces response) as [span|]; [|eexists; reflexivity].
  destruct (JSON_parse span) as [parsed|e]; eexists; reflexivity.
Qed.

Lemma checkRAG_formatted file now text L src r :
  checkRAG file now text L src = Return (Some r) ->
  ∃ data, r = formatStructuredOutput now data.
Proof.
  unfold checkRAG, checkRAG_body.
  destruct (loadGlossary file) as [[|g]|e]; [done| |done].
  rewrite result_bind_Return.
  destruct (has_translation g _ L).
  - intros [= <-]. eexists. reflexivity.
  - unfold findPartialMatch. destruct (forallb _ _); [|done].
    intros [= <-]. eexists. reflexivity.
Qed.

(** A normalized result has the eight fields of a result. *)
Lemma formatStructuredOutput_fields now data k :
  k ∈ result_fields -> is_Some (formatStructuredOutput now data !! k).
Proof.
  intros Hk. rewrite formatStructuredOutput_lookup.
  repeat (case_decide; [by eauto|]).
  rewrite lookup_union, default_structure_lookup.
  destruct (data !! k) as [v|] eqn:Hd; [rewrite union_Some_l; by eauto|].
  rewrite (left_id_L None _). unfold result_fields in Hk.
  repeat (apply elem_of_cons in Hk as [Hk|Hk];
          [subst k; repeat (case_decide; [by eauto|]); done|]).
  by apply elem_of_nil in Hk.
Qed.

(** The normalizer hands a property [hasOwnProperty] of the data on, and
    adds none. *)
Lemma formatStructuredOutput_method now data :
  formatStructuredOutput now data !! "hasOwnProperty"
  = data !! "hasOwnProperty".
Proof.
  rewrite formatStructuredOutput_lookup.
  repeat (case_decide; [done|]).
  rewrite lookup_union, default_structure_lookup.
  repeat (case_decide; [done|]).
  by rewrite (right_id_L None _).
Qed.

(** A normalized result passes [validateStructuredOutput], unless the data
    had a property [hasOwnProperty], on which the validation throws. *)
Lemma formatStructuredOutput_valid now data :
  validateStructuredOutput (VObj (formatStructuredOutput now data))
  = match data !! "hasOwnProperty" with
    | Some _ => Throw (Error "output.hasOwnProperty is not a function")
    | None => Return true
    end.
Proof.
  unfold validateStructuredOutput. rewrite formatStructuredOutput_method.
  destruct (data !! "hasOwnProperty"); [reflexivity|]. f_equal.
  apply forallb_Forall. unfold requiredFields.
  repeat (constructor;
          [rewrite bool_decide_eq_true, formatStructuredOutput_lookup;
           repeat (case_decide; [by eauto|]); by eauto|]).
  constructor.
Qed.

Lemma required_are_result_fields k : k ∈ requiredFields -> k ∈ result_fields.
Proof.
  unfold requiredFields, result_fields. intros Hk.
  repeat (apply elem_of_cons in Hk as [->|Hk];
          [apply list_elem_of_In; simpl; tauto|]).
  by apply elem_of_nil in Hk.
Qed.

Lemma translate_body_formatted
    (JSON_parse : jsstring -> result object)
    (generateContent : jsstring -> result generation)
    file now text L src r :
  translate_body JSON_parse generateContent file now text L src = Return r ->
  ∃ data, r = formatStructuredOutput now data.
Proof.
  unfold translate_body. intros H.
  apply bind_Return_inv in H as ([ragResult|] & Hrag & H).
  { injection H as <-. by eapply checkRAG_formatted. }
  cbv zeta in H.
  apply bind_Return_inv in H as (generated & _ & H).
  apply bind_Return_inv in H as (response & _ & H).
  apply bind_Return_inv in H as (? & _ & H).
  apply bind_Return_inv in H as (candidates & _ & H).
  apply bind_Return_inv in H as (candidate0 & _ & H).
  apply bind_Return_inv in H as (content & _ & H).
  apply bind_Return_inv in H as (parts & _ & H).
  apply bind_Return_inv in H as (part0 & _ & H).
  destruct (part_functionCall part0 ≫= fc_args) as [args|].
  { injection H as <-. eexists. reflexivity. }
  apply bind_Return_inv in H as (textResponse & _ & H).
  destruct (parseTextResponse_formatted JSON_parse now textResponse L src)
    as [data Hdata].
  rewrite Hdata in H. injection H as <-. by exists data.
Qed.

Lemma valid_function_arg (args : object) field :
  truthy (get args field) && is_string (get args field) = true ->
  ∃ s, s ≠ [] ∧ args !! field = Some (VStr s) ∧ get args field = VStr s.
Proof.
  unfold get. destruct (args !! field) as [[| | | |s| |]|]; simpl;
    try done; try (by rewrite andb_false_r).
  destruct s; [done|]. intros _. eexists. by repeat split.
Qed.

(** What [translate] makes of a function call.  When the resolver misses
    and the model answers with a function call whose arguments hold
    non-empty strings sourceLang, targetLang and translatedText,
    [translate] returns a result with status success whose source language,
    target language and translated text are those arguments.  Nothing else
    is read from the arguments: the confidence of the result is the default
    1.0 and its cultural notes are empty. *)
Lemma structured_call_result
    (JSON_parse : jsstring -> result object)
    (generateContent : jsstring -> result generation)
    file now text L src response candidates parts call args :
  checkRAG file now text L src = Return None ->
  generateContent (getTranslationPrompt text L src)
  = Return (Generation (Some response)) ->
  response_candidates response
  = Some (Candidate (Some (Content (Some (Part (Some call) :: parts))))
          :: candidates) ->
  fc_args call = Some args ->
  validateFunctionArgs (Some args) = true ->
  ∃ r, translate JSON_parse generateContent file now text L src = Return r
    ∧ r !! "status" = Some (VStr "success")
    ∧ r !! "source_language" = args !! "sourceLang"
    ∧ r !! "target_language" = args !! "targetLang"
    ∧ r !! "translated_text" = args !! "translatedText"
    ∧ r !! "confidence" = Some (VNum 1)
    ∧ r !! "cultural_notes" = Some (VStr "")
    ∧ r !! "error" = Some VNull.
Proof.
  intros Hrag Hgen Hcands Hargs Hvalid.
  unfold validateFunctionArgs in Hvalid. simpl forallb in Hvalid.
  apply andb_true_iff in Hvalid as [Hs Hvalid].
  apply andb_true_iff in Hvalid as [Hl Hvalid].
  apply andb_true_iff in Hvalid as [Ht _].
  apply valid_function_arg in Hs as (s & Hs & -> & Hgs).
  apply valid_function_arg in Hl as (l & Hl & -> & Hgl).
  apply valid_function_arg in Ht as (t & Ht & -> & Hgt).
  destruct s as [|c s]; [done|].
  pose proof (outcome_fields now (c :: s) l t "success" Hs) as Hf.
  cbv zeta in Hf.
  set (r := formatStructuredOutput now _) in Hf.
  destruct Hf as (H1 & H2 & H3 & H4 & H5 & H6 & H7); [done|].
  exists r. split.
  { unfold translate, translate_body.
    rewrite Hrag, result_bind_Return. cbv zeta.
    rewrite Hgen, result_bind_Return.
    cbn [generation_response read]. rewrite result_bind_Return.
    unfold logTokens. rewrite result_bind_Return, Hcands.
    repeat (cbn [read list.head candidate_content content_parts];
            rewrite result_bind_Return).
    cbn [part_functionCall mbind option_bind]. rewrite Hargs.
    rewrite Hgs, Hgl, Hgt. reflexivity. }
  split; [exact H1|]. split; [exact H4|]. split; [exact H3|].
  split; [exact H2|]. split; [exact H6|]. split; [exact H7|exact H5].
Qed.

Lemma structured_call_result_witness :
  ∃ r, translate only_empty_object (model_returning (call_response sample_args))
         no_file clock "good morning everyone" "Spanish" None = Return r
    ∧ r !! "status" = Some (VStr "success")
    ∧ r !! "source_language" = Some (VStr "English")
    ∧ r !! "target_language" = Some (VStr "Spanish")
    ∧ r !! "translated_text" = Some (VStr "buenos días a todos")
    ∧ r !! "confidence" = Some (VNum 1).
Proof.
  destruct (structured_call_result only_empty_object
              (model_returning (call_response sample_args))
              no_file clock "good morning everyone" "Spanish" None
              (call_response sample_args) [] []
              (FunctionCall "translate_text" (Some sample_args)) sample_args)
    as (r & Hr & Hst & Hs & Hl & Ht & Hc & _).
  - vm_compute. reflexivity.
  - reflexivity.
  - reflexivity.
  - reflexivity.
  - vm_compute. reflexivity.
  - exists r. split; [exact Hr|]. split; [exact Hst|].
    split; [rewrite Hs; vm_compute; reflexivity|].
    split; [rewrite Hl; vm_compute; reflexivity|].
    split; [rewrite Ht; vm_compute; reflexivity|exact Hc].
Defined.

(** C2.  The result of a function call is to take its confidence from
    the arguments of the call, and [translate] does not: the schema that it
    sends with the request asks the model for a confidence and for cultural
    notes, the model answers with the confidence 0.5, the arguments are
    valid, and the result reports the default 1.0 and no notes, although
    its source language, target language and translated text are those of
    the call. *)
Theorem payload_confidence_dropped :
  let outcome :=
    translate only_empty_object (model_returning (call_response sample_args))
      no_file clock "good morning everyone" "Spanish" None in
  validateFunctionArgs (Some sample_args) = true
  ∧ sample_args !! "confidence" = Some (VNum (Q2Qc (1 # 2)))
  ∧ sample_args !! "culturalNotes" = Some (VStr "Informal greeting")
  ∧ response_field outcome "status" = Some (VStr "success")
  ∧ response_field outcome "translated_text"
    = sample_args !! "translatedText"
  ∧ response_field outcome "confidence" = Some (VNum 1)
  ∧ response_field outcome "confidence" ≠ sample_args !! "confidence"
  ∧ response_field outcome "cultural_notes" = Some (VStr "").
Proof.
  intros outcome.
  assert (sample_args !! "confidence" = Some (VNum (Q2Qc (1 # 2)))) as Ha
    by (vm_compute; reflexivity).
  assert (response_field outcome "confidence" = Some (VNum 1)) as Hr
    by (vm_compute; reflexivity).
  split; [vm_compute; reflexivity|]. split; [exact Ha|].
  split; [vm_compute; reflexivity|]. split; [vm_compute; reflexivity|].
  split; [vm_compute; reflexivity|]. split; [exact Hr|].
  split; [|vm_compute; reflexivity].
  rewrite Ha, Hr. intros H. discriminate H.
Qed.

(** C7. When the resolver misses and the call of the model throws,
    [translate] returns a result with status error, an empty translated
    text and the message of the error in its error field.  And whatever the
    text, the glossary file, the model and the JSON parser do, [translate]
    returns a result and does not throw; the result is well formed: it has
    the eight fields of a result, the four required ones among them. *)
Theorem translate_never_throws
    (JSON_parse : jsstring -> result object)
    (generateContent : jsstring -> result generation)
    file now text L src :
  (∀ e, checkRAG file now text L src = Return None ->
        generateContent (getTranslationPrompt text L src) = Throw e ->
        ∃ r, translate JSON_parse generateContent file now text L src
             = Return r
          ∧ r !! "status" = Some (VStr "error")
          ∧ r !! "translated_text" = Some (VStr "")
          ∧ r !! "error" = Some (VStr (message e)))
  ∧ (∃ r, translate JSON_parse generateContent file now text L src = Return r
        ∧ (∀ k, k ∈ result_fields -> is_Some (r !! k))
        ∧ (∀ k, k ∈ requiredFields -> is_Some (r !! k))).
Proof.
  split.
  - intros e Hrag Hgen.
    pose proof (failure_fields now (or_string src "unknown") L "" "error"
                  (message e)) as Hf.
    cbv zeta in Hf.
    set (r := formatStructuredOutput now _) in Hf.
    destruct Hf as (H1 & H2 & _ & _ & H5 & _);
      [by apply or_string_nonempty|done|].
    exists r. split.
    { unfold translate, translate_body.
      rewrite Hrag, result_bind_Return. cbv zeta. rewrite Hgen.
      reflexivity. }
    split; [exact H1|]. split; [exact H2|exact H5].
  - unfold translate.
    destruct (translate_body JSON_parse generateContent file now text L src)
      as [r|e] eqn:Hbody.
    + apply translate_body_formatted in Hbody as [data ->].
      eexists. split; [reflexivity|].
      split; intros k Hk; apply formatStructuredOutput_fields;
        [exact Hk|by apply required_are_result_fields].
    + eexists. split; [reflexivity|].
      split; intros k Hk; apply formatStructuredOutput_fields;
        [exact Hk|by apply required_are_result_fields].
Qed.

Lemma translate_never_throws_witness :
  ∃ r, translate only_empty_object (model_failing "fetch failed")
         no_file clock "good morning everyone" "Spanish" None = Return r
    ∧ r !! "status" = Some (VStr "error")
    ∧ r !! "translated_text" = Some (VStr "")
    ∧ r !! "error" = Some (VStr "fetch failed").
Proof.
  destruct (translate_never_throws only_empty_object
              (model_failing "fetch failed") no_file clock
              "good morning everyone" "Spanish" None) as [H _].
  apply (H (Error "fetch failed")).
  - vm_compute. reflexivity.
  - reflexivity.
Defined.

(** * Further properties of the code *)

(** ** The glossary as state: [addToGlossary] and [getGlossaryStats] *)

Lemma translation_set_same g p L t :
  translation (set_translation g p L t) p L = Some t.
Proof.
  unfold translation, set_translation.
  rewrite lookup_insert_eq. simpl. by rewrite lookup_insert_eq.
Qed.

Lemma translation_set_other g p L t w L' :
  (w, L') ≠ (p, L) ->
  translation (set_translation g p L t) w L' = translation g w L'.
Proof.
  intros Hne. unfold translation, set_translation.
  destruct (decide (w = p)) as [->|Hw].
  - rewrite lookup_insert_eq. simpl.
    rewrite lookup_insert_ne by congruence.
    destruct (g !! p); simpl; [done|]. by rewrite lookup_empty.
  - by rewrite lookup_insert_ne.
Qed.

Lemma snapshot_in_use st g : glossary_of st = Some g -> in_use (snapshot st) g.
Proof.
  unfold glossary_of, snapshot, in_use.
  destruct (loadGlossary_in st) as [[|g']|g']; [done| |]; by intros [= ->].
Qed.

Lemma snapshot_saved m g : snapshot (Store m (Parsed (StoredGlossary g)))
                           = Parsed (StoredGlossary g).
Proof. reflexivity. Qed.

(** A hit on a stored translation, in any glossary. *)
Lemma stored_translation_hit file now g text L src t :
  in_use file g -> translation g (normalized text) L = Some t -> t ≠ [] ->
  ∃ r, checkRAG file now text L src = Return (Some r)
    ∧ r !! "status" = Some (VStr "success")
    ∧ r !! "confidence" = Some (VNum 1)
    ∧ r !! "translated_text" = Some (VStr t).
Proof.
  intros Hin Ht Hne.
  destruct (checkRAG_exact file now g text L src Hin
              (translation_entry _ _ _ _ Ht Hne))
    as (r & t' & Hr & Ht' & H1 & H2 & H3 & _).
  rewrite Ht in Ht'. injection Ht' as <-.
  exists r. split; [exact Hr|]. split; [exact H1|]. split; [exact H2|exact H3].
Qed.

(** X1. What [addToGlossary] saves, [checkRAG] finds: after a call that
    made the directory and wrote the file, every text with the normal form
    of the source text resolves in the target language to the translation
    given (when that is not the empty string), with confidence 1.0,
    whatever the glossary held for that phrase before.  The phrase and the
    language are no inherited names, so that the write sets a property of
    the glossary and of its entry. *)
Theorem addToGlossary_round_trip
    st g sourceText translatedText L sourceLang now text src :
  glossary_of st = Some g ->
  own_name (normalized sourceText) -> own_name L ->
  translatedText ≠ [] ->
  normalized text = normalized sourceText ->
  let after :=
    addToGlossary st sourceText translatedText L sourceLang
      (Return ()) Written in
  fst after = true
  ∧ ∃ r, checkRAG_in (snd after) now text L src = Return (Some r)
      ∧ r !! "status" = Some (VStr "success")
      ∧ r !! "confidence" = Some (VNum 1)
      ∧ r !! "translated_text" = Some (VStr translatedText).
Proof.
  intros Hg _ _ Hne Hnorm after. subst after.
  unfold addToGlossary, checkRAG_in. fold (normalized sourceText).
  unfold glossary_of in Hg.
  destruct (loadGlossary_in st) as [[|g']|g']; [done| |];
    injection Hg as ->; cbn [fst snd]; rewrite snapshot_saved;
    (split; [reflexivity|]);
    (eapply stored_translation_hit; [reflexivity| |exact Hne]);
    rewrite Hnorm; apply translation_set_same.
Qed.

Lemma addToGlossary_round_trip_witness :
  ∃ r, checkRAG_in
         (snd (addToGlossary (initial no_file) " Good Morning" "buenos días"
                 "Spanish" "English" (Return ()) Written))
         clock "good morning  " "Spanish" None = Return (Some r)
    ∧ r !! "translated_text" = Some (VStr "buenos días").
Proof.
  destruct (addToGlossary_round_trip (initial no_file) DEFAULT_GLOSSARY
              " Good Morning" "buenos días" "Spanish" "English" clock
              "good morning  " None) as (_ & r & Hr & _ & _ & Ht).
  - reflexivity.
  - unfold own_name. by_evaluation.
  - unfold own_name. by_evaluation.
  - discriminate.
  - vm_compute. reflexivity.
  - exists r. split; [exact Hr|exact Ht].
Defined.

(** X2. [addToGlossary] changes one translation only: after a call that
    saved, the translation stored for every other phrase, and for the same
    phrase in every other language, is what it was.  The source text is
    one of Basic Latin and Latin-1 code units, and the phrase and the
    language are no inherited names. *)
Theorem addToGlossary_keeps_the_rest
    st g sourceText translatedText L sourceLang w L' :
  glossary_of st = Some g ->
  latin1 sourceText ->
  own_name (normalized sourceText) -> own_name L ->
  (w, L') ≠ (normalized sourceText, L) ->
  ∃ g', glossary_of (snd (addToGlossary st sourceText translatedText L
                            sourceLang (Return ()) Written)) = Some g'
      ∧ translation g' w L' = translation g w L'.
Proof.
  intros Hg _ _ _ Hne. unfold addToGlossary. fold (normalized sourceText).
  unfold glossary_of in Hg.
  destruct (loadGlossary_in st) as [[|g0]|g0]; [done| |];
    injection Hg as ->; cbn [snd];
    (eexists; split; [reflexivity|]); by apply translation_set_other.
Qed.

Lemma addToGlossary_keeps_the_rest_witness :
  ∃ g', glossary_of (snd (addToGlossary (initial no_file) "hello" "salut"
                            "French" "English" (Return ()) Written))
        = Some g'
      ∧ translation g' "hello" "Spanish"
        = translation DEFAULT_GLOSSARY "hello" "Spanish".
Proof.
  apply (addToGlossary_keeps_the_rest (initial no_file) DEFAULT_GLOSSARY
           "hello" "salut" "French" "English" "hello" "Spanish").
  - reflexivity.
  - by_evaluation.
  - unfold own_name. by_evaluation.
  - unfold own_name. by_evaluation.
  - intros H. apply (f_equal snd) in H. discriminate H.
Defined.

(** X3. A save that fails still changes what the process resolves when
    the glossary file is unreadable: [loadGlossary] then hands out the
    default object itself and [addToGlossary] writes the translation into
    it before it tries the directory.  With a failing [mkdir] the call
    returns [false], and yet every later resolution of the phrase in this
    process finds the translation.  When the file is readable, the same
    failure leaves the state as it was.  The phrase and the language are
    no inherited names, so that the write sets a property of the object
    that [loadGlossary] returned and of nothing else. *)
Theorem failed_save_changes_default
    st sourceText translatedText L sourceLang e write now text src :
  own_name (normalized sourceText) -> own_name L ->
  translatedText ≠ [] ->
  normalized text = normalized sourceText ->
  let after :=
    addToGlossary st sourceText translatedText L sourceLang (Throw e) write in
  ((∃ e', read_and_parse (disk st) = Throw e') ->
     fst after = false
     ∧ ∃ r, checkRAG_in (snd after) now text L src = Return (Some r)
         ∧ r !! "translated_text" = Some (VStr translatedText))
  ∧ ((∃ j, disk st = Parsed j) -> after = (false, st)).
Proof.
  intros _ _ Hne Hnorm after. subst after. unfold addToGlossary.
  fold (normalized sourceText). unfold loadGlossary_in. split.
  - intros [e' He']. rewrite He'. cbn [fst snd]. split; [reflexivity|].
    unfold checkRAG_in, snapshot, loadGlossary_in. cbn [disk memory].
    rewrite He'.
    destruct (stored_translation_hit
                (Parsed (StoredGlossary
                   (set_translation (memory st) (normalized sourceText) L
                      translatedText)))
                now _ text L src translatedText eq_refl)
      as (r & Hr & _ & _ & Ht); [|exact Hne|].
    + rewrite Hnorm. apply translation_set_same.
    + exists r. split; [exact Hr|exact Ht].
  - intros [j Hj]. rewrite Hj. cbn [read_and_parse].
    destruct st as [m d]. cbn [disk memory] in *. subst d.
    by destruct j.
Qed.

Lemma failed_save_changes_default_witness :
  fst (addToGlossary (initial no_file) "good morning" "buenos días" "Spanish"
         "English" (Throw (Error "EACCES: permission denied")) Written)
  = false
  ∧ checkRAG_in (initial no_file) clock "Good morning" "Spanish" None
    = Return None
  ∧ ∃ r, checkRAG_in
           (snd (addToGlossary (initial no_file) "good morning" "buenos días"
                   "Spanish" "English"
                   (Throw (Error "EACCES: permission denied")) Written))
           clock "Good morning" "Spanish" None = Return (Some r)
      ∧ r !! "translated_text" = Some (VStr "buenos días").
Proof.
  destruct (failed_save_changes_default (initial no_file) "good morning"
              "buenos días" "Spanish" "English"
              (Error "EACCES: permission denied") Written clock
              "Good morning" None) as [H _].
  - unfold own_name. by_evaluation.
  - unfold own_name. by_evaluation.
  - discriminate.
  - vm_compute. reflexivity.
  - destruct H as (Hf & r & Hr & Ht); [eexists; reflexivity|].
    split; [exact Hf|]. split; [vm_compute; reflexivity|].
    exists r. split; [exact Hr|exact Ht].
Defined.

Lemma split_go_no_whitespace acc s :
  no_whitespace s -> split_go false acc s = [rev acc ++ s].
Proof.
  intros H. revert acc. induction H as [|c s Hc _ IH]; intros acc; simpl.
  - by rewrite app_nil_r.
  - rewrite Hc, IH. simpl. by rewrite <- app_assoc.
Qed.

(** A text without white space is its own single token. *)
Lemma split_whitespace_no_whitespace s :
  no_whitespace s -> split_whitespace s = [s].
Proof. intros H. unfold split_whitespace. by rewrite split_go_no_whitespace. Qed.

(** X4. A glossary file that holds the JSON document [null] switches the
    glossary off: every resolution is a miss, whatever the text;
    [addToGlossary] returns [false] and changes nothing, whatever the file
    system would do; and [getGlossaryStats] returns an error. *)
Theorem null_document_disables_glossary
    (toFixed2 : nat -> nat -> jsstring)
    st sourceText translatedText L sourceLang mkdir write now text src :
  disk st = Parsed StoredNull ->
  checkRAG_in st now text L src = Return None
  ∧ addToGlossary st sourceText translatedText L sourceLang mkdir write
    = (false, st)
  ∧ getGlossaryStats toFixed2 st
    = StatsError "Cannot convert undefined or null to object".
Proof.
  intros Hd.
  unfold checkRAG_in, snapshot, addToGlossary, getGlossaryStats,
    loadGlossary_in.
  rewrite Hd. cbn [read_and_parse]. repeat split.
Qed.

Lemma null_document_disables_glossary_witness :
  checkRAG_in (initial null_file) clock "hello" "Spanish" None = Return None
  ∧ addToGlossary (initial null_file) "good morning" "buenos días" "Spanish"
      "English" (Return ()) Written
    = (false, initial null_file).
Proof.
  destruct (null_document_disables_glossary (fun _ _ => "")
              (initial null_file) "good morning" "buenos días" "Spanish"
              "English" (Return ()) Written clock "hello" None eq_refl)
    as (H1 & H2 & _).
  split; [exact H1|exact H2].
Defined.

(** X5. Saving an empty translation takes a phrase out of the glossary:
    the empty string is stored, but it is falsy, so after the save a text
    with the normal form of the source text is no exact hit any more; when
    that normal form is a single word, the resolution is a miss, also where
    it was a hit before.  The phrase and the language are no inherited
    names. *)
Theorem empty_translation_unresolvable
    st g sourceText L sourceLang now text src :
  glossary_of st = Some g ->
  own_name (normalized sourceText) -> own_name L ->
  normalized text = normalized sourceText ->
  no_whitespace (normalized sourceText) ->
  checkRAG_in
    (snd (addToGlossary st sourceText "" L sourceLang (Return ()) Written))
    now text L src
  = Return None.
Proof.
  intros Hg _ _ Hnorm Hword.
  assert (∀ g0, ¬ has_entry
            (set_translation g0 (normalized sourceText) L "") L
            (normalized sourceText)) as Hno.
  { intros g0 Hhas.
    destruct (has_entry_translation _ _ _ Hhas) as (t & Ht & Hne).
    rewrite translation_set_same in Ht. by injection Ht as <-. }
  unfold addToGlossary, checkRAG_in. fold (normalized sourceText).
  unfold glossary_of in Hg.
  destruct (loadGlossary_in st) as [[|g0]|g0]; [done| |];
    injection Hg as ->; cbn [snd]; rewrite snapshot_saved;
    (rewrite (checkRAG_fallback _ now
               (set_translation g (normalized sourceText) L ""));
       [|reflexivity|rewrite Hnorm; apply Hno]);
    rewrite Hnorm; unfold findPartialMatch;
    rewrite (split_whitespace_no_whitespace _ Hword);
    cbn [forallb];
    pose proof (proj2 (has_translation_no_entry _ _ _) (Hno g)) as ->;
    reflexivity.
Qed.

Lemma empty_translation_unresolvable_witness :
  is_hit (checkRAG_in (initial no_file) clock "Hello" "Spanish" None) = true
  ∧ checkRAG_in
      (snd (addToGlossary (initial no_file) "hello" "" "Spanish" "English"
              (Return ()) Written))
      clock "Hello" "Spanish" None
    = Return None.
Proof.
  split; [vm_compute; reflexivity|].
  apply (empty_translation_unresolvable (initial no_file) DEFAULT_GLOSSARY).
  - reflexivity.
  - unfold own_name. by_evaluation.
  - unfold own_name. by_evaluation.
  - vm_compute. reflexivity.
  - replace (normalized "hello") with "hello" by (vm_compute; reflexivity).
    unfold no_whitespace. repeat constructor.
Defined.

Lemma total_insert_new (g : glossary) (p : jsstring)
    (e : gmap jsstring jsstring) :
  g !! p = None ->
  map_fold (fun _ entry sum => (sum + size entry)%nat) 0%nat (<[p := e]> g)
  = (map_fold (fun _ entry sum => (sum + size entry)%nat) 0%nat g
     + size e)%nat.
Proof.
  intros Hp. rewrite map_fold_insert_L; [done| |done]. intros. lia.
Qed.

Lemma total_insert_old (g : glossary) (p : jsstring)
    (e e' : gmap jsstring jsstring) :
  g !! p = Some e ->
  (map_fold (fun _ entry sum => (sum + size entry)%nat) 0%nat (<[p := e']> g)
   + size e
   = map_fold (fun _ entry sum => (sum + size entry)%nat) 0%nat g
     + size e')%nat.
Proof.
  intros Hp.
  rewrite (map_fold_delete_L _ _ p e g); [|intros; lia|done].
  rewrite <- (insert_delete_eq g), total_insert_new
    by apply lookup_delete_eq.
  lia.
Qed.

Lemma set_translation_counts (g : glossary) (p L t : jsstring) :
  size (set_translation g p L t)
  = match g !! p with Some _ => size g | None => S (size g) end
  ∧ map_fold (fun _ entry sum => (sum + size entry)%nat) 0%nat
      (set_translation g p L t)
    = match translation g p L with
      | Some _ =>
        map_fold (fun _ entry sum => (sum + size entry)%nat) 0%nat g
      | None =>
        S (map_fold (fun _ entry sum => (sum + size entry)%nat) 0%nat g)
      end.
Proof.
  unfold set_translation, translation. rewrite map_size_insert.
  destruct (g !! p) as [e|] eqn:Hp; simpl.
  - split; [done|].
    pose proof (total_insert_old g p e (<[L:=t]> e) Hp) as H.
    rewrite map_size_insert in H. destruct (e !! L); simpl in H; lia.
  - split; [done|].
    rewrite total_insert_new, map_size_insert, lookup_empty by done.
    simpl. rewrite map_size_empty. lia.
Qed.

(** X6. The statistics follow the saves.  After [addToGlossary] saved,
    [getGlossaryStats] counts one entry more exactly when the phrase was
    new, and one translation more exactly when the phrase had no
    translation in that language; overwriting a translation changes neither
    count.  The source text is one of Basic Latin and Latin-1 code units,
    and the phrase and the language are no inherited names. *)
Theorem stats_after_save
    (toFixed2 : nat -> nat -> jsstring)
    st g sourceText translatedText L sourceLang n m a :
  glossary_of st = Some g ->
  latin1 sourceText ->
  own_name (normalized sourceText) -> own_name L ->
  getGlossaryStats toFixed2 st = Stats n m a ->
  ∃ a',
    getGlossaryStats toFixed2
      (snd (addToGlossary st sourceText translatedText L sourceLang
              (Return ()) Written))
    = Stats
        (match g !! normalized sourceText with Some _ => n | None => S n end)
        (match translation g (normalized sourceText) L with
         | Some _ => m
         | None => S m
         end)
        a'.
Proof.
  intros Hg _ _ _ Hstats.
  destruct (set_translation_counts g (normalized sourceText) L translatedText)
    as [Hsize Htotal].
  unfold addToGlossary. fold (normalized sourceText).
  unfold glossary_of in Hg. unfold getGlossaryStats in Hstats.
  destruct (loadGlossary_in st) as [[|g0]|g0]; [done| |];
    injection Hg as ->; injection Hstats as <- <- _; cbn [snd];
    unfold getGlossaryStats, loadGlossary_in; cbn [disk read_and_parse];
    rewrite Hsize, Htotal; eexists; reflexivity.
Qed.

Lemma stats_after_save_witness :
  ∃ a', getGlossaryStats (fun _ _ => "0.00")
          (snd (addToGlossary (initial no_file) "good morning" "buenos días"
                  "Spanish" "English" (Return ()) Written))
        = Stats 6 51 a'.
Proof.
  destruct (stats_after_save (fun _ _ => "0.00") (initial no_file)
              DEFAULT_GLOSSARY "good morning" "buenos días" "Spanish"
              "English" 5 50 (VStr "0.00")) as [a' Ha'].
  - reflexivity.
  - by_evaluation.
  - unfold own_name. by_evaluation.
  - unfold own_name. by_evaluation.
  - vm_compute. reflexivity.
  - exists a'. rewrite Ha'.
    replace (DEFAULT_GLOSSARY !! normalized "good morning")
      with (@None (gmap jsstring jsstring)) by (vm_compute; reflexivity).
    replace (translation DEFAULT_GLOSSARY (normalized "good morning")
               "Spanish")
      with (@None jsstring) by (vm_compute; reflexivity).
    reflexivity.
Defined.

(** ** Normal forms of phrases *)

Lemma lower_unit_idem c : lower_unit (lower_unit c) = lower_unit c.
Proof.
  unfold lower_unit.
  destruct ((65 <=? c)%N && (c <=? 90)%N) eqn:E1.
  { apply andb_true_iff in E1 as [?%N.leb_le ?%N.leb_le].
    replace ((65 <=? c + 32)%N && (c + 32 <=? 90)%N) with false
      by (symmetry; apply andb_false_iff; right; apply N.leb_gt; lia).
    replace ((192 <=? c + 32)%N && (c + 32 <=? 222)%N
             && negb (c + 32 =? 215)%N) with false; [done|].
    symmetry. apply andb_false_iff. left. apply andb_false_iff. left.
    apply N.leb_gt. lia. }
  destruct ((192 <=? c)%N && (c <=? 222)%N && negb (c =? 215)%N) eqn:E2.
  { apply andb_true_iff in E2 as [[?%N.leb_le ?%N.leb_le]%andb_true_iff _].
    replace ((65 <=? c + 32)%N && (c + 32 <=? 90)%N) with false
      by (symmetry; apply andb_false_iff; right; apply N.leb_gt; lia).
    replace ((192 <=? c + 32)%N && (c + 32 <=? 222)%N
             && negb (c + 32 =? 215)%N) with false; [done|].
    symmetry. apply andb_false_iff. left. apply andb_false_iff. right.
    apply N.leb_gt. lia. }
  by rewrite E1, E2.
Qed.

Lemma toLowerCase_lower_stable s : lower_stable (toLowerCase s).
Proof.
  induction s as [|c s IH]; constructor; [apply lower_unit_idem|exact IH].
Qed.

Lemma lower_stable_toLowerCase s : lower_stable s -> toLowerCase s = s.
Proof. induction 1 as [|c s Hc _ IH]; simpl; [done|]. by rewrite Hc, IH. Qed.

Lemma trimStart_split s :
  ∃ ws, all_whitespace ws ∧ s = ws ++ trimStart s.
Proof.
  induction s as [|c s (ws & Hws & IH)]; simpl.
  - exists []. by split; [constructor|].
  - destruct (is_whitespace c) eqn:Hc.
    + exists (c :: ws). split; [by constructor|]. simpl. by f_equal.
    + exists []. by split; [constructor|].
Qed.

Lemma trimEnd_split s :
  ∃ ws, all_whitespace ws ∧ s = trimEnd s ++ ws.
Proof.
  destruct (trimStart_split (rev s)) as (ws & Hws & Hs).
  exists (rev ws). split; [by apply Forall_rev|].
  unfold trimEnd. rewrite <- rev_app_distr, <- Hs. by rewrite rev_involutive.
Qed.

Lemma trimStart_Forall (P : N -> Prop) s : Forall P s -> Forall P (trimStart s).
Proof.
  induction 1 as [|c s Hc Hs IH]; simpl; [constructor|].
  destruct (is_whitespace c); [exact IH|by constructor].
Qed.

Lemma trim_Forall (P : N -> Prop) s : Forall P s -> Forall P (trim s).
Proof.
  intros H. unfold trim, trimEnd.
  by apply Forall_rev, trimStart_Forall, Forall_rev, trimStart_Forall.
Qed.

Lemma trimStart_clean s : clean_start (trimStart s).
Proof.
  induction s as [|c s IH]; simpl; [done|].
  by destruct (is_whitespace c) eqn:Hc.
Qed.

Lemma trimStart_id s : clean_start s -> trimStart s = s.
Proof. destruct s as [|c s]; simpl; [done|]. by intros ->. Qed.

Lemma trimEnd_clean s : clean_start s -> clean_start (trimEnd s).
Proof.
  intros Hs. destruct (trimEnd_split s) as (ws & _ & Heq).
  destruct (trimEnd s) as [|c r]; [done|].
  rewrite Heq in Hs. exact Hs.
Qed.

Lemma trimEnd_idem s : trimEnd (trimEnd s) = trimEnd s.
Proof.
  unfold trimEnd. rewrite rev_involutive.
  by rewrite (trimStart_id (trimStart _)) by apply trimStart_clean.
Qed.

Lemma trim_idem s : trim (trim s) = trim s.
Proof.
  unfold trim.
  rewrite (trimStart_id (trimEnd _)) by apply trimEnd_clean, trimStart_clean.
  apply trimEnd_idem.
Qed.

(** Normalizing twice is normalizing once. *)
Lemma normalized_idem text : normalized (normalized text) = normalized text.
Proof.
  unfold normalized.
  rewrite (lower_stable_toLowerCase (trim _))
    by apply trim_Forall, toLowerCase_lower_stable.
  apply trim_idem.
Qed.

Lemma trim_no_whitespace s : no_whitespace s -> trim s = s.
Proof.
  intros H. unfold trim.
  assert (∀ x, no_whitespace x -> trimStart x = x) as Hid.
  { intros x Hx. apply trimStart_id. by destruct Hx. }
  rewrite (Hid s H). unfold trimEnd.
  rewrite (Hid (rev s)) by (by apply Forall_rev). apply rev_involutive.
Qed.

(** The tokens of a text have no white space, and keep what holds of every
    code unit of the text. *)
Lemma split_go_tokens (P : N -> Prop) in_run acc s :
  Forall P acc -> no_whitespace acc -> Forall P s ->
  Forall (fun w => no_whitespace w ∧ Forall P w) (split_go in_run acc s).
Proof.
  intros Hacc Hnw Hs. revert in_run acc Hacc Hnw.
  induction Hs as [|c s Hc _ IH]; intros in_run acc Hacc Hnw; simpl.
  - constructor; [|constructor]. split; by apply Forall_rev.
  - destruct (is_whitespace c) eqn:Hws.
    + destruct in_run; [by apply IH|].
      constructor; [split; by apply Forall_rev|].
      apply IH; constructor.
    + apply IH; by constructor.
Qed.

Lemma tokens_normal text :
  Forall (fun w => normalized w = w) (split_whitespace (normalized text)).
Proof.
  eapply Forall_impl;
    [|apply (split_go_tokens (fun c => lower_unit c = c) false []);
      [constructor|constructor|]].
  - intros w [Hnw Hlow]. unfold normalized.
    rewrite (lower_stable_toLowerCase w Hlow). by apply trim_no_whitespace.
  - apply trim_Forall, toLowerCase_lower_stable.
Qed.

Lemma findPartialMatch_ext (now phrase L : jsstring) (g g' : glossary) :
  Forall (fun w => translation g w L = translation g' w L)
         (split_whitespace phrase) ->
  findPartialMatch now phrase L g = findPartialMatch now phrase L g'.
Proof.
  intros H. unfold findPartialMatch.
  assert (forallb (fun word => has_translation g word L)
                  (split_whitespace phrase)
          = forallb (fun word => has_translation g' word L)
                    (split_whitespace phrase)) as ->.
  { induction H as [|w l Hw _ IH]; simpl; [done|].
    unfold has_translation at 1 3. by rewrite Hw, IH. }
  assert (map (fun word => default [] (translation g word L))
              (split_whitespace phrase)
          = map (fun word => default [] (translation g' word L))
                (split_whitespace phrase)) as ->; [|done].
  induction H as [|w l Hw _ IH]; simpl; [done|]. by rewrite Hw, IH.
Qed.

(** The resolution reads the glossary at normal forms only. *)
Lemma checkRAG_ext (g g' : glossary) (now text L : jsstring)
    (src : option jsstring) :
  (∀ w, normalized w = w -> g !! w = g' !! w) ->
  checkRAG (Parsed (StoredGlossary g)) now text L src
  = checkRAG (Parsed (StoredGlossary g')) now text L src.
Proof.
  intros Hagree.
  assert (∀ w, normalized w = w -> translation g w L = translation g' w L)
    as Htr.
  { intros w Hw. unfold translation. by rewrite (Hagree w Hw). }
  unfold checkRAG, checkRAG_body, loadGlossary. cbn [read_and_parse try_catch].
  rewrite !result_bind_Return. fold (normalized text).
  unfold has_translation.
  rewrite (Htr (normalized text) (normalized_idem text)).
  rewrite (findPartialMatch_ext now (normalized text) L g g'); [done|].
  eapply Forall_impl; [|apply tokens_normal]. intros w Hw. by apply Htr.
Qed.

(** X7. A key of the glossary file that is not in normal form, not
    lowercased or with white space at an end, is never read: every
    resolution gives what it gives on the file without that key.  Such a
    key can only come from a file written by other means, since
    [addToGlossary] normalizes its keys. *)
Theorem key_outside_normal_form_unreachable
    (g : glossary) (K now text L : jsstring) (src : option jsstring) :
  normalized K ≠ K ->
  checkRAG (Parsed (StoredGlossary g)) now text L src
  = checkRAG (Parsed (StoredGlossary (delete K g))) now text L src.
Proof.
  intros HK. apply checkRAG_ext. intros w Hw.
  rewrite lookup_delete_ne; [done|]. by intros ->.
Qed.

Lemma key_outside_normal_form_unreachable_witness :
  checkRAG capital_key_file clock "Hello" "Spanish" None = Return None.
Proof.
  unfold capital_key_file.
  rewrite (key_outside_normal_form_unreachable _ "Hello").
  - vm_compute. reflexivity.
  - vm_compute. discriminate.
Defined.

(** ** What the prompts hold *)

Lemma contains_middle (a x b : jsstring) : contains x (a ++ x ++ b).
Proof. by exists a, b. Qed.

Lemma contains_trans (a b c : jsstring) :
  contains a b -> contains b c -> contains a c.
Proof.
  intros (p & q & ->) (p' & q' & ->). exists (p' ++ p), (q ++ q').
  by rewrite <- !app_assoc.
Qed.

Lemma contains_prefixed (a x : jsstring) : contains x (a ++ x).
Proof. exists a, []. by rewrite app_nil_r. Qed.

(** A line of a template occurs in the prompt. *)
Lemma contains_line (l : list jsstring) i x :
  l !! i = Some x -> contains x (lines l).
Proof.
  unfold lines. revert i. induction l as [|y l IH]; intros i; [done|].
  destruct i as [|i]; simpl.
  - intros [= ->]. destruct l as [|z l]; [exists [], []; by rewrite app_nil_r|].
    by exists [], (newline ++ join newline (z :: l)).
  - intros Hi. destruct l as [|z l]; [done|].
    eapply contains_trans; [exact (IH i Hi)|].
    change (join newline (y :: z :: l))
      with (y ++ newline ++ join newline (z :: l)).
    exists (y ++ newline), []. by rewrite app_nil_r, <- app_assoc.
Qed.

Lemma contains_in_line (l : list jsstring) i part x :
  l !! i = Some x -> contains part x -> contains part (lines l).
Proof. intros Hi Hx. eapply contains_trans; [exact Hx|by eapply contains_line]. Qed.

Ltac in_line n :=
  eapply contains_in_line with (i := n); [reflexivity|].

Lemma getZeroShotPrompt_embeds text L src :
  embeds text L src (getZeroShotPrompt text L src).
Proof.
  unfold embeds, getZeroShotPrompt. split; [|split].
  - by apply (contains_line _ 4%nat).
  - in_line 2%nat; apply contains_middle.
  - in_line 0%nat; apply contains_prefixed.
Qed.

Lemma getOneShotPrompt_embeds text L src :
  embeds text L src (getOneShotPrompt text L src).
Proof.
  unfold embeds, getOneShotPrompt. split; [|split].
  - by apply (contains_line _ 11%nat).
  - in_line 9%nat; apply contains_middle.
  - in_line 0%nat; apply contains_prefixed.
Qed.

Lemma getMultiShotPrompt_embeds text L src :
  embeds text L src (getMultiShotPrompt text L src).
Proof.
  unfold embeds, getMultiShotPrompt. split; [|split].
  - by apply (contains_line _ 30%nat).
  - in_line 0%nat; apply contains_middle.
  - in_line 0%nat.
    rewrite !app_assoc. apply contains_prefixed.
Qed.

Lemma getChainOfThoughtPrompt_embeds text L src :
  embeds text L src (getChainOfThoughtPrompt text L src).
Proof.
  unfold embeds, getChainOfThoughtPrompt. split; [|split].
  - in_line 10%nat; apply contains_prefixed.
  - in_line 0%nat; apply contains_middle.
  - in_line 0%nat.
    rewrite !app_assoc. apply contains_prefixed.
Qed.

(** X8. Every prompt carries the request.  Whatever the strategy name,
    the prompt of [getPromptByStrategy], hence also that of
    [getTranslationPrompt], and the step-by-step prompt hold the text as it
    was given between double quotes, the name of the target language, and
    the sentence on the source language; that sentence names the source
    language when one is given and asks to detect it when none is. *)
Theorem prompts_carry_the_request text L src strategy :
  embeds text L src (getPromptByStrategy text L src strategy)
  ∧ embeds text L src (getTranslationPrompt text L src)
  ∧ embeds text L src (getChainOfThoughtPrompt text L src)
  ∧ (∀ c s, src = Some (c :: s) ->
       sourceLangInstruction src = "The text is in " ++ (c :: s) ++ ".")
  ∧ (src = None ∨ src = Some [] ->
       sourceLangInstruction src = "Please auto-detect the source language.").
Proof.
  assert (embeds text L src (getTranslationPrompt text L src)) as Hauto.
  { unfold getTranslationPrompt. destruct (analyzeTextComplexity text);
      [apply getZeroShotPrompt_embeds | apply getOneShotPrompt_embeds
      | apply getMultiShotPrompt_embeds]. }
  split; [|split; [exact Hauto|split; [apply getChainOfThoughtPrompt_embeds|]]].
  - unfold getPromptByStrategy. repeat case_decide;
      [apply getZeroShotPrompt_embeds | apply getOneShotPrompt_embeds
      | apply getMultiShotPrompt_embeds | exact Hauto].
  - split; [by intros c s ->|by intros [-> | ->]].
Qed.

Lemma prompts_carry_the_request_witness :
  sourceLangInstruction (Some "English") = "The text is in English."
  ∧ sourceLangInstruction None = "Please auto-detect the source language.".
Proof.
  destruct (prompts_carry_the_request "Hello" "French" (Some "English") "zero")
    as (_ & _ & _ & H & _).
  destruct (prompts_carry_the_request "Hello" "French" None "zero")
    as (_ & _ & _ & _ & H').
  split; [exact (H _ _ eq_refl)|apply H'; by left].
Defined.

(** ** The classifier at its edges *)

Lemma letter_not_whitespace c : (65 ≤ c ≤ 122)%N -> is_whitespace c = false.
Proof.
  intros Hc. destruct (is_whitespace c) eqn:E; [|done].
  apply is_whitespace_spec in E. lia.
Qed.

Lemma differ_is_whitespace a b :
  differ_in_case_only a b -> is_whitespace a = is_whitespace b.
Proof.
  intros [->|[[Ha ->]|[Hb ->]]]; [done| |];
    rewrite !letter_not_whitespace; (done || lia).
Qed.

Lemma differ_canonicalize a b :
  differ_in_case_only a b -> canonicalize a = canonicalize b.
Proof.
  intros [->|[[Ha ->]|[Hb ->]]]; [done| |]; unfold canonicalize.
  - replace ((97 <=? a)%N && (a <=? 122)%N) with false
      by (symmetry; apply andb_false_iff; left; apply N.leb_gt; lia).
    replace ((97 <=? a + 32)%N && (a + 32 <=? 122)%N) with true; [lia|].
    symmetry. apply andb_true_iff. split; apply N.leb_le; lia.
  - replace ((97 <=? b)%N && (b <=? 122)%N) with false
      by (symmetry; apply andb_false_iff; left; apply N.leb_gt; lia).
    replace ((97 <=? b + 32)%N && (b + 32 <=? 122)%N) with true; [lia|].
    symmetry. apply andb_true_iff. split; apply N.leb_le; lia.
Qed.

Lemma letter_is_word c :
  (65 ≤ c ≤ 90)%N ∨ (97 ≤ c ≤ 122)%N -> is_word c = true.
Proof.
  intros H. unfold is_word.
  rewrite !orb_true_iff, !andb_true_iff, !N.leb_le. tauto.
Qed.

Lemma word_or_whitespace_not_special c :
  is_word c = true ∨ is_whitespace c = true -> is_special c = false.
Proof.
  unfold is_special. intros [-> | ->]; [done|]. by rewrite orb_true_r.
Qed.

Lemma differ_is_special a b :
  differ_in_case_only a b -> is_special a = is_special b.
Proof.
  intros [->|[[Ha ->]|[Hb ->]]]; [done| |];
    rewrite !word_or_whitespace_not_special;
    (done || (left; apply letter_is_word; lia)).
Qed.

Lemma same_case_split_length in_run acc acc' s p :
  same_up_to_case s p ->
  length (split_go in_run acc s) = length (split_go in_run acc' p).
Proof.
  intros H. revert in_run acc acc'.
  induction H as [|a b s p Hab _ IH]; intros in_run acc acc'; simpl; [done|].
  rewrite (differ_is_whitespace a b Hab).
  destruct (is_whitespace b); [destruct in_run; simpl|]; auto.
Qed.

Lemma same_case_matches_here pattern s p :
  same_up_to_case s p -> matches_here pattern s = matches_here pattern p.
Proof.
  intros H. revert pattern.
  induction H as [|a b s p Hab _ IH]; intros [|c pattern]; simpl; [done..|].
  by rewrite (differ_canonicalize a b Hab), IH.
Qed.

Lemma same_case_matches_somewhere pattern s p :
  same_up_to_case s p ->
  matches_somewhere pattern s = matches_somewhere pattern p.
Proof.
  intros H.
  induction H as [|a b s p Hab Hsp IH].
  - done.
  - cbn [matches_somewhere].
    rewrite (same_case_matches_here pattern (a :: s) (b :: p))
      by (by constructor).
    by rewrite IH.
Qed.

Lemma same_case_hasSpecialChars s p :
  same_up_to_case s p -> hasSpecialChars s = hasSpecialChars p.
Proof.
  unfold hasSpecialChars.
  induction 1 as [|a b s p Hab _ IH]; simpl; [done|].
  by rewrite (differ_is_special a b Hab), IH.
Qed.

(** X9. The classification does not depend on the case of Basic Latin
    letters: two texts that differ in the case of such letters only have
    the same word count, the same idiom and special-character findings, and
    so the same complexity and the same kind of prompt. *)
Theorem classification_ignores_case s p :
  same_up_to_case s p ->
  wordCount s = wordCount p
  ∧ hasIdioms s = hasIdioms p
  ∧ hasSpecialChars s = hasSpecialChars p
  ∧ analyzeTextComplexity s = analyzeTextComplexity p.
Proof.
  intros H.
  assert (wordCount s = wordCount p) as Hw
    by (by apply same_case_split_length).
  assert (hasIdioms s = hasIdioms p) as Hi.
  { unfold hasIdioms, idioms. cbn [existsb].
    by rewrite !(same_case_matches_somewhere _ s p H). }
  pose proof (same_case_hasSpecialChars s p H) as Hs.
  repeat split; try done.
  unfold analyzeTextComplexity. by rewrite Hw, Hi, Hs.
Qed.

Lemma classification_ignores_case_witness :
  analyzeTextComplexity "THE EARLY BIRD" = analyzeTextComplexity "the early bird".
Proof.
  apply (classification_ignores_case "THE EARLY BIRD" "the early bird").
  unfold same_up_to_case, differ_in_case_only.
  repeat (constructor; [lia|]). constructor.
Defined.

(** X10. More words never give a cheaper strategy: of two texts with the
    same idiom and special-character findings, the one with at least as
    many words is classified at least as high, in the order simple,
    moderate, complex. *)
Theorem classification_monotone s p :
  hasIdioms s = hasIdioms p ->
  hasSpecialChars s = hasSpecialChars p ->
  (wordCount s ≤ wordCount p)%nat ->
  (rank (analyzeTextComplexity s) ≤ rank (analyzeTextComplexity p))%nat.
Proof.
  intros Hi Hs Hw. unfold analyzeTextComplexity. rewrite Hi, Hs.
  destruct (hasIdioms p), (hasSpecialChars p); simpl;
    repeat case_bool_decide; simpl; lia.
Qed.

Lemma classification_monotone_witness :
  (rank (analyzeTextComplexity "one two three")
   ≤ rank (analyzeTextComplexity "one two three four five six"))%nat.
Proof.
  apply classification_monotone; [vm_compute; reflexivity..|].
  vm_compute. lia.
Defined.

Lemma split_go_whitespace in_run acc ws :
  all_whitespace ws ->
  (length (split_go in_run acc ws) ≤ 2)%nat.
Proof.
  intros H. revert in_run acc.
  induction H as [|c ws Hc Hws IH]; intros in_run acc; simpl; [lia|].
  rewrite Hc. destruct in_run; [apply IH|]. simpl.
  assert (∀ acc', length (split_go true acc' ws) = 1%nat) as ->; [|lia].
  clear -Hws. induction Hws as [|c ws Hc _ IH]; intros acc'; simpl; [done|].
  by rewrite Hc.
Qed.

Lemma matches_somewhere_whitespace c pattern ws :
  (97 ≤ c ≤ 122)%N -> all_whitespace ws ->
  matches_somewhere (c :: pattern) ws = false.
Proof.
  intros Hc H. induction H as [|w ws Hw _ IH]; [done|].
  cbn [matches_somewhere matches_here]. rewrite IH, orb_false_r.
  apply andb_false_iff. left. apply N.eqb_neq.
  apply is_whitespace_spec in Hw. unfold canonicalize.
  replace ((97 <=? c)%N && (c <=? 122)%N) with true
    by (symmetry; apply andb_true_iff; split; apply N.leb_le; lia).
  destruct ((97 <=? w)%N && (w <=? 122)%N) eqn:E; [|lia].
  apply andb_true_iff in E as [?%N.leb_le ?%N.leb_le]. lia.
Qed.

Lemma whitespace_hasSpecialChars text :
  all_whitespace text -> hasSpecialChars text = false.
Proof.
  unfold hasSpecialChars. induction 1 as [|c text Hc _ IH]; simpl; [done|].
  by rewrite word_or_whitespace_not_special, IH by (by right).
Qed.

(** X11. The empty text and every text of white space only are simple:
    they count one or two words, hold no idiom and no special character,
    and so get the zero-shot prompt. *)
Theorem blank_text_is_simple text L src :
  all_whitespace text ->
  (1 ≤ wordCount text ≤ 2)%nat
  ∧ analyzeTextComplexity text = simple
  ∧ getTranslationPrompt text L src = getZeroShotPrompt text L src.
Proof.
  intros H.
  assert (wordCount text ≤ 2)%nat as Hw by (by apply split_go_whitespace).
  assert (1 ≤ wordCount text)%nat as Hw1.
  { unfold wordCount, split_whitespace. destruct text as [|c text]; simpl;
      [lia|]. inversion H as [|?? Hc _]; subst. rewrite Hc. simpl. lia. }
  assert (hasIdioms text = false) as Hi.
  { unfold hasIdioms, idioms. cbn [existsb].
    rewrite !matches_somewhere_whitespace; (done || lia). }
  pose proof (whitespace_hasSpecialChars text H) as Hs.
  assert (analyzeTextComplexity text = simple) as Ha.
  { unfold analyzeTextComplexity. rewrite Hi, Hs.
    rewrite bool_decide_true by lia. done. }
  split; [lia|]. split; [exact Ha|].
  unfold getTranslationPrompt. by rewrite Ha.
Qed.

Lemma blank_text_is_simple_witness :
  analyzeTextComplexity "" = simple ∧ wordCount "" = 1%nat
  ∧ wordCount "  " = 2%nat.
Proof.
  destruct (blank_text_is_simple "" "French" None) as (_ & H & _);
    [constructor|].
  split; [exact H|]. split; reflexivity.
Defined.

Lemma matches_here_variant pattern variant rest :
  same_up_to_case variant pattern ->
  matches_here pattern (variant ++ rest) = true.
Proof.
  intros H. induction H as [|a b variant pattern Hab _ IH]; simpl.
  - by destruct rest.
  - rewrite IH, andb_true_r. apply N.eqb_eq. symmetry.
    by apply differ_canonicalize.
Qed.

Lemma matches_somewhere_after pattern before s :
  matches_here pattern s = true ->
  matches_somewhere pattern (before ++ s) = true.
Proof.
  intros H. induction before as [|c before IH]; simpl.
  - destruct s; simpl; by rewrite H.
  - by rewrite IH, orb_true_r.
Qed.

(** X12. A listed idiom anywhere in the text, in any casing, makes the
    text complex whatever its length, and gives it the multi-shot
    prompt. *)
Theorem idiom_forces_multi_shot idiom variant before after L src :
  idiom ∈ idioms ->
  same_up_to_case variant idiom ->
  hasIdioms (before ++ variant ++ after) = true
  ∧ analyzeTextComplexity (before ++ variant ++ after) = complex
  ∧ getTranslationPrompt (before ++ variant ++ after) L src
    = getMultiShotPrompt (before ++ variant ++ after) L src.
Proof.
  intros Hin Hvar.
  assert (hasIdioms (before ++ variant ++ after) = true) as Hi.
  { unfold hasIdioms. apply existsb_exists. exists idiom.
    split; [by apply list_elem_of_In|].
    by apply matches_somewhere_after, matches_here_variant. }
  assert (analyzeTextComplexity (before ++ variant ++ after) = complex) as Ha.
  { unfold analyzeTextComplexity. rewrite Hi. by rewrite !andb_false_r. }
  split; [exact Hi|]. split; [exact Ha|].
  unfold getTranslationPrompt. by rewrite Ha.
Qed.

Lemma idiom_forces_multi_shot_witness :
  analyzeTextComplexity "An Early Bird!" = complex.
Proof.
  destruct (idiom_forces_multi_shot "early bird" "Early Bird" "An " "!"
              "French" None) as (_ & H & _).
  - unfold idioms. apply list_elem_of_In. simpl. tauto.
  - unfold same_up_to_case, differ_in_case_only.
    repeat (constructor; [lia|]). constructor.
  - exact H.
Defined.

Lemma split_go_run_whitespace acc ws :
  all_whitespace ws -> split_go true acc ws = [rev acc].
Proof.
  intros H. induction H as [|c ws Hc _ IH]; simpl; [done|]. by rewrite Hc.
Qed.

Lemma split_go_trailing in_run acc s ws :
  (s = [] -> in_run = false) ->
  clean_start (rev s) ->
  ws ≠ [] -> all_whitespace ws ->
  split_go in_run acc (s ++ ws) = split_go in_run acc s ++ [[]].
Proof.
  intros Hrun Hend Hne Hws. revert in_run acc Hrun Hend.
  induction s as [|c s IH]; intros in_run acc Hrun Hend.
  - rewrite (Hrun eq_refl). destruct Hws as [|w ws Hw Hws]; [done|].
    simpl. rewrite Hw. by rewrite split_go_run_whitespace.
  - assert (s ≠ [] -> clean_start (rev s)) as Htail.
    { intros Hs. simpl in Hend.
      destruct (rev s) as [|x r] eqn:Hr; [|exact Hend].
      apply (f_equal (@rev N)) in Hr. rewrite rev_involutive in Hr.
      by destruct Hs. }
    simpl. destruct (is_whitespace c) eqn:Hc.
    + assert (s ≠ []) as Hs.
      { intros ->. simpl in Hend. congruence. }
      destruct in_run.
      * apply IH; [done|by apply Htail].
      * simpl. f_equal. apply IH; [done|by apply Htail].
    + apply IH; [done|].
      destruct s as [|x s]; [done|]. by apply Htail.
Qed.

(** X13. White space at the end of a text counts as one more word: a
    text that does not end in white space, followed by any white space, has
    the word count of the text plus one, since [split] leaves an empty piece
    after the last separator.  So five words and a line feed are six words,
    and no longer simple. *)
Theorem trailing_whitespace_counts text ws :
  clean_start (rev text) ->
  ws ≠ [] -> all_whitespace ws ->
  split_whitespace (text ++ ws) = split_whitespace text ++ [[]]
  ∧ wordCount (text ++ ws) = S (wordCount text).
Proof.
  intros Hend Hne Hws.
  assert (split_whitespace (text ++ ws) = split_whitespace text ++ [[]]) as H
    by (by apply split_go_trailing).
  split; [exact H|]. unfold wordCount. rewrite H, length_app. simpl. lia.
Qed.

Lemma trailing_whitespace_counts_witness :
  wordCount ("how are you doing today" ++ newline) = 6%nat
  ∧ analyzeTextComplexity "how are you doing today" = simple
  ∧ analyzeTextComplexity ("how are you doing today" ++ newline) = moderate.
Proof.
  destruct (trailing_whitespace_counts "how are you doing today" newline)
    as [_ H].
  - vm_compute. reflexivity.
  - discriminate.
  - repeat constructor.
  - split; [exact H|]. split; vm_compute; reflexivity.
Defined.

(** ** [translate] beyond the structured call *)

Lemma translate_returned
    (JSON_parse : jsstring -> result object)
    (generateContent : jsstring -> result generation)
    file now text L src r :
  translate_body JSON_parse generateContent file now text L src = Return r ->
  translate JSON_parse generateContent file now text L src = Return r.
Proof. unfold translate. by intros ->. Qed.

Lemma translate_caught
    (JSON_parse : jsstring -> result object)
    (generateContent : jsstring -> result generation)
    file now text L src e :
  translate_body JSON_parse generateContent file now text L src = Throw e ->
  ∃ r, translate JSON_parse generateContent file now text L src = Return r
    ∧ r = createErrorResponse now (message e) (or_string src "unknown") L
    ∧ r !! "status" = Some (VStr "error")
    ∧ r !! "translated_text" = Some (VStr "")
    ∧ r !! "error" = Some (VStr (message e)).
Proof.
  intros Hbody.
  pose proof (failure_fields now (or_string src "unknown") L "" "error"
                (message e)) as Hf.
  cbv zeta in Hf.
  set (r := formatStructuredOutput now _) in Hf.
  destruct Hf as (H1 & H2 & _ & _ & H5 & _);
    [by apply or_string_nonempty|done|].
  exists r. split; [unfold translate; rewrite Hbody; reflexivity|].
  split; [reflexivity|]. split; [exact H1|]. split; [exact H2|exact H5].
Qed.

(** X14. A glossary hit ends the request: when [checkRAG] hits,
    [translate] returns that hit whatever the model and the JSON parser
    would do, so the model is not consulted. *)
Theorem glossary_hit_skips_the_model
    (JSON_parse JSON_parse' : jsstring -> result object)
    (generateContent generateContent' : jsstring -> result generation)
    file now text L src r :
  checkRAG file now text L src = Return (Some r) ->
  translate JSON_parse generateContent file now text L src = Return r
  ∧ translate JSON_parse' generateContent' file now text L src = Return r.
Proof.
  intros H. split; apply translate_returned; unfold translate_body;
    by rewrite H, result_bind_Return.
Qed.

Lemma glossary_hit_skips_the_model_witness :
  ∃ r, checkRAG no_file clock "Hello" "Spanish" None = Return (Some r)
    ∧ translate only_empty_object (model_failing "fetch failed") no_file
        clock "Hello" "Spanish" None = Return r.
Proof.
  destruct (checkRAG no_file clock "Hello" "Spanish" None)
    as [[r|]|e] eqn:Hr;
    [|exfalso; apply (f_equal is_hit) in Hr; vm_compute in Hr;
      discriminate Hr..].
  exists r. split; [reflexivity|].
  apply (glossary_hit_skips_the_model only_empty_object only_empty_object
           (model_failing "fetch failed") (model_failing "fetch failed")
           no_file clock "Hello" "Spanish" None r Hr).
Defined.

(** What [translate] does with the answer of the model once the first part
    of the first candidate is there. *)
Lemma translate_body_first_part
    (JSON_parse : jsstring -> result object)
    (generateContent : jsstring -> result generation)
    file now text L src response part0 :
  checkRAG file now text L src = Return None ->
  generateContent (getTranslationPrompt text L src)
  = Return (Generation (Some response)) ->
  first_part (Generation (Some response)) = Some part0 ->
  translate_body JSON_parse generateContent file now text L src
  = match part_functionCall part0 ≫= fc_args with
    | Some args =>
      Return (formatStructuredOutput now
        (object_literal
           [ ("source_language",
               or_else (get args "sourceLang") (VStr "auto-detected"));
             ("target_language", get args "targetLang");
             ("translated_text", get args "translatedText");
             ("status", VStr "success") ]))
    | None =>
      textResponse ← response_text response;
      parseTextResponse JSON_parse now textResponse L src
    end.
Proof.
  intros Hrag Hgen Hpart. unfold translate_body.
  rewrite Hrag, result_bind_Return. cbv zeta.
  rewrite Hgen, result_bind_Return.
  cbn [generation_response read]. rewrite result_bind_Return.
  unfold logTokens. rewrite result_bind_Return.
  unfold first_part in Hpart. cbn [generation_response mbind option_bind] in Hpart.
  destruct (response_candidates response) as [[|candidate0 cs]|];
    [done| |done].
  cbn [list.head mbind option_bind] in Hpart.
  destruct (candidate_content candidate0) as [content|] eqn:Hc; [|done].
  cbn [mbind option_bind] in Hpart.
  destruct (content_parts content) as [[|p ps]|] eqn:Hp; [done| |done].
  cbn [list.head mbind option_bind] in Hpart. injection Hpart as ->.
  repeat (progress (cbn [read list.head];
                    rewrite ?result_bind_Return, ?Hc, ?Hp)).
  reflexivity.
Qed.

Lemma first_part_missing_throws
    (JSON_parse : jsstring -> result object)
    (generateContent : jsstring -> result generation)
    file now text L src generated :
  checkRAG file now text L src = Return None ->
  generateContent (getTranslationPrompt text L src) = Return generated ->
  first_part generated = None ->
  ∃ prop,
    translate_body JSON_parse generateContent file now text L src
    = Throw (Error ("Cannot read properties of undefined (reading '"
                    ++ prop ++ "')")).
Proof.
  intros Hrag Hgen Hpart. unfold translate_body.
  rewrite Hrag, result_bind_Return. cbv zeta. rewrite Hgen, result_bind_Return.
  destruct generated as [[response|]]; [|by eexists].
  cbn [generation_response read]. rewrite result_bind_Return.
  unfold logTokens. rewrite result_bind_Return.
  unfold first_part in Hpart.
  cbn [generation_response mbind option_bind] in Hpart.
  destruct (response_candidates response) as [[|candidate0 cs]|];
    [by eexists| |by eexists].
  cbn [list.head mbind option_bind] in Hpart.
  repeat (progress (cbn [read list.head]; rewrite ?result_bind_Return)).
  destruct (candidate_content candidate0) as [content|]; [|by eexists].
  cbn [mbind option_bind] in Hpart.
  repeat (progress (cbn [read list.head]; rewrite ?result_bind_Return)).
  destruct (content_parts content) as [[|p ps]|]; [by eexists|done|by eexists].
Qed.

(** X15. An answer of the model without a first part, where the
    response, its candidates, the first candidate, its content, its parts
    or the first part is missing, does not make [translate] throw: the
    TypeError of the property read is caught, and the result has status
    error, an empty translated text and the message of that error. *)
Theorem malformed_answer_is_error
    (JSON_parse : jsstring -> result object)
    (generateContent : jsstring -> result generation)
    file now text L src generated :
  checkRAG file now text L src = Return None ->
  generateContent (getTranslationPrompt text L src) = Return generated ->
  first_part generated = None ->
  ∃ r msg,
    translate JSON_parse generateContent file now text L src = Return r
    ∧ r !! "status" = Some (VStr "error")
    ∧ r !! "translated_text" = Some (VStr "")
    ∧ r !! "error" = Some (VStr msg)
    ∧ contains "Cannot read properties of undefined" msg.
Proof.
  intros Hrag Hgen Hpart.
  destruct (first_part_missing_throws JSON_parse generateContent file now
              text L src generated Hrag Hgen Hpart) as [prop Hthrow].
  destruct (translate_caught _ _ _ _ _ _ _ _ Hthrow)
    as (r & Hr & _ & H1 & H2 & H3).
  exists r, (message (Error ("Cannot read properties of undefined (reading '"
                             ++ prop ++ "')"))).
  split; [exact Hr|]. split; [exact H1|]. split; [exact H2|].
  split; [exact H3|].
  by exists [], (" (reading '" ++ prop ++ "')").
Qed.

Lemma malformed_answer_is_error_witness :
  ∃ r msg,
    translate only_empty_object
      (fun _ => Return (Generation (Some (Response None (Some []) (Return "")))))
      no_file clock "good morning everyone" "Spanish" None = Return r
    ∧ r !! "status" = Some (VStr "error")
    ∧ r !! "error" = Some (VStr msg).
Proof.
  destruct (malformed_answer_is_error only_empty_object
              (fun _ => Return (Generation (Some
                 (Response None (Some []) (Return "")))))
              no_file clock "good morning everyone" "Spanish" None
              (Generation (Some (Response None (Some []) (Return "")))))
    as (r & msg & Hr & Hs & _ & He & _).
  - vm_compute. reflexivity.
  - reflexivity.
  - reflexivity.
  - exists r, msg. split; [exact Hr|]. split; [exact Hs|exact He].
Defined.

(** X16. Without a function call, the text of the response decides: when
    the first part has no function call, or one without arguments,
    [translate] returns what [parseTextResponse] makes of
    [response.text()]; and when [response.text()] throws, the result has
    status error with the message thrown. *)
Theorem text_answer_goes_to_the_parser
    (JSON_parse : jsstring -> result object)
    (generateContent : jsstring -> result generation)
    file now text L src response part0 :
  checkRAG file now text L src = Return None ->
  generateContent (getTranslationPrompt text L src)
  = Return (Generation (Some response)) ->
  first_part (Generation (Some response)) = Some part0 ->
  part_functionCall part0 ≫= fc_args = None ->
  (∀ t, response_text response = Return t ->
        translate JSON_parse generateContent file now text L src
        = parseTextResponse JSON_parse now t L src)
  ∧ (∀ e, response_text response = Throw e ->
        ∃ r, translate JSON_parse generateContent file now text L src
             = Return r
          ∧ r !! "status" = Some (VStr "error")
          ∧ r !! "error" = Some (VStr (message e))).
Proof.
  intros Hrag Hgen Hpart Hcall.
  pose proof (translate_body_first_part JSON_parse generateContent file now
                text L src response part0 Hrag Hgen Hpart) as Hbody.
  rewrite Hcall in Hbody. split.
  - intros t Ht. rewrite Ht, result_bind_Return in Hbody.
    destruct (parseTextResponse_formatted JSON_parse now t L src)
      as [data Hdata].
    rewrite Hdata in Hbody |- *. by apply translate_returned.
  - intros e He. rewrite He in Hbody.
    destruct (translate_caught _ _ _ _ _ _ _ _ Hbody)
      as (r & Hr & _ & H1 & _ & H3).
    exists r. split; [exact Hr|]. split; [exact H1|exact H3].
Qed.

Lemma text_answer_goes_to_the_parser_witness :
  translate only_empty_object (model_returning (text_response "plugh xyzzy"))
    no_file clock "xyzzy plugh" "French" None
  = parseTextResponse only_empty_object clock "plugh xyzzy" "French" None
  ∧ response_field
      (parseTextResponse only_empty_object clock "plugh xyzzy" "French" None)
      "translated_text" = Some (VStr "plugh xyzzy").
Proof.
  destruct (text_answer_goes_to_the_parser only_empty_object
              (model_returning (text_response "plugh xyzzy")) no_file clock
              "xyzzy plugh" "French" None (text_response "plugh xyzzy")
              (Part None)) as [H _].
  - vm_compute. reflexivity.
  - reflexivity.
  - reflexivity.
  - reflexivity.
  - split; [by apply H|]. vm_compute. reflexivity.
Defined.

Lemma get_literal (a b c d : value) :
  let data := object_literal
    [ ("source_language", a); ("target_language", b);
      ("translated_text", c); ("status", d) ] in
  get data "source_language" = a ∧ get data "target_language" = b
  ∧ get data "translated_text" = c ∧ get data "status" = d.
Proof. repeat split; vm_compute; reflexivity. Qed.

Lemma get_absent (o : object) k : o !! k = None -> get o k = VUndefined.
Proof. unfold get. by intros ->. Qed.

(** X17. The arguments of a function call are not validated: with any
    arguments at all, [translate] returns status success, and each of the
    three fields is the argument if that is truthy and its default if not.
    A call without translatedText gives a success with an empty translated
    text, where [validateFunctionArgs] would have said no. *)
Theorem call_arguments_are_not_validated
    (JSON_parse : jsstring -> result object)
    (generateContent : jsstring -> result generation)
    file now text L src response part0 args :
  checkRAG file now text L src = Return None ->
  generateContent (getTranslationPrompt text L src)
  = Return (Generation (Some response)) ->
  first_part (Generation (Some response)) = Some part0 ->
  part_functionCall part0 ≫= fc_args = Some args ->
  ∃ r, translate JSON_parse generateContent file now text L src = Return r
    ∧ r !! "status" = Some (VStr "success")
    ∧ r !! "translated_text"
      = Some (or_else (get args "translatedText") (VStr ""))
    ∧ r !! "target_language"
      = Some (or_else (get args "targetLang") (VStr ""))
    ∧ r !! "source_language"
      = Some (or_else (get args "sourceLang") (VStr "auto-detected"))
    ∧ (args !! "translatedText" = None ->
       validateFunctionArgs (Some args) = false
       ∧ r !! "translated_text" = Some (VStr "")).
Proof.
  intros Hrag Hgen Hpart Hcall.
  pose proof (translate_body_first_part JSON_parse generateContent file now
                text L src response part0 Hrag Hgen Hpart) as Hbody.
  rewrite Hcall in Hbody. apply translate_returned in Hbody.
  destruct (get_literal
              (or_else (get args "sourceLang") (VStr "auto-detected"))
              (get args "targetLang") (get args "translatedText")
              (VStr "success")) as (Gs & Gl & Gt & Gst).
  revert Hbody Gs Gl Gt Gst.
  generalize (object_literal
    [ ("source_language",
        or_else (get args "sourceLang") (VStr "auto-detected"));
      ("target_language", get args "targetLang");
      ("translated_text", get args "translatedText");
      ("status", VStr "success") ]).
  intros data Hbody Gs Gl Gt Gst.
  exists (formatStructuredOutput now data). split; [exact Hbody|].
  rewrite !formatStructuredOutput_lookup, Gs, Gl, Gt, Gst, or_else_idem.
  split; [reflexivity|]. split; [reflexivity|]. split; [reflexivity|].
  split; [reflexivity|]. intros Hnone.
  rewrite (get_absent args "translatedText" Hnone). split; [|reflexivity].
  unfold validateFunctionArgs. cbn [forallb].
  rewrite (get_absent args "translatedText" Hnone). simpl.
  by rewrite !andb_false_r.
Qed.

Lemma call_arguments_are_not_validated_witness :
  validateFunctionArgs (Some ∅) = false
  ∧ ∃ r, translate only_empty_object (model_returning (call_response ∅))
           no_file clock "good morning everyone" "Spanish" None = Return r
      ∧ r !! "status" = Some (VStr "success")
      ∧ r !! "translated_text" = Some (VStr "").
Proof.
  destruct (call_arguments_are_not_validated only_empty_object
              (model_returning (call_response ∅)) no_file clock
              "good morning everyone" "Spanish" None (call_response ∅)
              (Part (Some (FunctionCall "translate_text" (Some ∅)))) ∅)
    as (r & Hr & Hs & _ & _ & _ & H).
  - vm_compute. reflexivity.
  - reflexivity.
  - reflexivity.
  - reflexivity.
  - destruct (H eq_refl) as [Hv Ht]. split; [exact Hv|].
    exists r. split; [exact Hr|]. split; [exact Hs|exact Ht].
Defined.

(** X18. A JSON block in the text is normalized as it is, not mapped from
    the names of the function schema: when the span parses, the translated
    text, the target language and the status of the result are the
    properties translated_text, target_language and status of the parsed
    object (or their defaults), the target language of the request is not
    used, and every other property of the object is handed on.  So a block
    that names its fields as the schema does, with translatedText, gives an
    empty translated text. *)
Theorem parsed_block_is_normalized_as_is
    (JSON_parse : jsstring -> result object) now response L src span parsed :
  match_braces response = Some span ->
  JSON_parse span = Return parsed ->
  ∃ r, parseTextResponse JSON_parse now response L src = Return r
    ∧ r = formatStructuredOutput now parsed
    ∧ r !! "translated_text"
      = Some (or_else (get parsed "translated_text") (VStr ""))
    ∧ r !! "target_language"
      = Some (or_else (get parsed "target_language") (VStr ""))
    ∧ r !! "status" = Some (or_else (get parsed "status") (VStr "success"))
    ∧ (∀ k v, k ∉ computed_fields -> parsed !! k = Some v ->
              r !! k = Some v)
    ∧ (parsed !! "translated_text" = None ->
       r !! "translated_text" = Some (VStr "")).
Proof.
  intros Hspan Hparsed. exists (formatStructuredOutput now parsed).
  split; [unfold parseTextResponse; by rewrite Hspan, Hparsed|].
  split; [reflexivity|].
  rewrite !formatStructuredOutput_lookup.
  split; [reflexivity|]. split; [reflexivity|]. split; [reflexivity|].
  split.
  - intros k v Hk Hv. rewrite formatStructuredOutput_lookup.
    unfold computed_fields in Hk.
    repeat (case_decide; [subst k; exfalso; apply Hk; set_solver|]).
    by rewrite lookup_union, Hv, union_Some_l.
  - intros Hnone. by rewrite (get_absent parsed _ Hnone).
Qed.

Lemma parsed_block_is_normalized_as_is_witness :
  ∃ r, parseTextResponse schema_block_parser clock
         ("Here you go: " ++ schema_block) "French" None = Return r
    ∧ r !! "translated_text" = Some (VStr "")
    ∧ r !! "translatedText" = Some (VStr "bonjour")
    ∧ r !! "target_language" = Some (VStr "").
Proof.
  destruct (parsed_block_is_normalized_as_is schema_block_parser
              clock ("Here you go: " ++ schema_block) "French" None
              schema_block {[ "translatedText" := VStr "bonjour" ]})
    as (r & Hr & _ & _ & Hl & _ & Hk & Ht); [reflexivity..|].
  exists r. split; [exact Hr|]. split; [by apply Ht|].
  split; [|rewrite Hl; reflexivity].
  apply Hk; [|reflexivity].
  unfold computed_fields. intros H.
  repeat (apply elem_of_cons in H as [H|H]; [discriminate H|]).
  by apply elem_of_nil in H.
Defined.

(** ** The brace span *)

Lemma from_first_split c s :
  ∃ before, s = before ++ from_first c s ∧ c ∉ before.
Proof.
  induction s as [|x s (before & Hs & Hc)]; simpl.
  - exists []. split; [done|]. apply not_elem_of_nil.
  - destruct (x =? c)%N eqn:E.
    + exists []. split; [done|]. apply not_elem_of_nil.
    + exists (x :: before). split; [simpl; by f_equal|].
      apply N.eqb_neq in E. apply not_elem_of_cons. by split.
Qed.

Lemma from_first_head c s :
  from_first c s = [] ∨ ∃ r, from_first c s = c :: r.
Proof.
  induction s as [|x s IH]; simpl; [by left|].
  destruct (x =? c)%N eqn:E; [|exact IH].
  apply N.eqb_eq in E as ->. right. by eexists.
Qed.

Lemma from_first_found c before r :
  c ∉ before -> from_first c (before ++ c :: r) = c :: r.
Proof.
  induction before as [|x before IH]; simpl; intros H.
  - by rewrite N.eqb_refl.
  - apply not_elem_of_cons in H as [Hx H].
    replace (x =? c)%N with false by (symmetry; by apply N.eqb_neq).
    by apply IH.
Qed.

(** X19. The span that [parseTextResponse] hands to [JSON.parse] runs
    from the first opening brace of the response to the last closing brace
    after it: there is a span exactly when the response splits into a part
    without opening brace, the span, which starts with an opening and ends
    with a closing brace, and a part without closing brace.  Two JSON
    blocks in one response are therefore parsed as one span. *)
Theorem match_braces_spec response span :
  match_braces response = Some span
  ↔ ∃ before inside after,
      response = before ++ span ++ after
      ∧ span = [123%N] ++ inside ++ [125%N]
      ∧ (123%N ∉ before) ∧ (125%N ∉ after).
Proof.
  unfold match_braces. split.
  - destruct (from_first_split 123 response) as (before & Hresp & Hbefore).
    destruct (from_first_split 125 (rev (from_first 123 response)))
      as (after' & Hrev & Hafter).
    destruct (rev (from_first 125 (rev (from_first 123 response))))
      as [|c r] eqn:Hspan; [done|]. intros [= <-].
    assert (from_first 123 response = (c :: r) ++ rev after') as Hsplit.
    { rewrite <- Hspan, <- rev_app_distr, <- Hrev. by rewrite rev_involutive. }
    assert (c = 123%N) as ->.
    { destruct (from_first_head 123 response) as [He|[x He]];
        rewrite He in Hsplit; [done|]. by injection Hsplit. }
    assert (∃ inside, r = inside ++ [125%N]) as [inside ->].
    { destruct (from_first_head 125 (rev (from_first 123 response)))
        as [He|[x He]]; rewrite He in Hspan; [done|].
      simpl in Hspan. destruct (rev x) as [|y l]; simpl in Hspan;
        [discriminate Hspan|].
      injection Hspan as _ <-. by eexists. }
    exists before, inside, (rev after'). repeat split.
    + by rewrite Hresp at 1; rewrite Hsplit.
    + done.
    + intros H. apply Hafter. rewrite list_elem_of_In in H |- *.
      by apply in_rev.
  - intros (before & inside & after & -> & -> & Hb & Ha).
    simpl. rewrite from_first_found by done.
    replace (rev (123%N :: (inside ++ [125%N]) ++ after))
      with (rev after ++ 125%N :: rev (123%N :: inside)).
    2:{ simpl. rewrite !rev_app_distr. simpl. by rewrite <- !app_assoc. }
    rewrite from_first_found.
    + simpl. rewrite rev_app_distr, rev_involutive. simpl. done.
    + intros H. apply Ha. rewrite list_elem_of_In in H |- *.
      by apply in_rev in H.
Qed.

Lemma match_braces_spec_witness :
  match_braces "a {x} and {y} b" = Some "{x} and {y}".
Proof.
  apply match_braces_spec. exists "a ", "x} and {y", " b".
  split; [reflexivity|]. split; [reflexivity|].
  split; intros H;
    repeat (apply elem_of_cons in H as [H|H]; [discriminate H|]);
    by apply elem_of_nil in H.
Defined.

(** ** The normalizer and its helpers *)

(** X20. What the normalizer guarantees for every object given to it:
    the result has all eight result fields; it passes
    [validateStructuredOutput] when the data have no property
    [hasOwnProperty], and makes the validation throw when they have one;
    its timestamp is the clock reading, also when the data had a
    timestamp; its status and its source language are never falsy; and
    apart from the five fields it computes, every property of the data is
    handed on, and every absent one takes the default. *)
Theorem formatStructuredOutput_complete (now : jsstring) (data : object) :
  let r := formatStructuredOutput now data in
  (∀ k, k ∈ result_fields -> is_Some (r !! k))
  ∧ (data !! "hasOwnProperty" = None ->
       validateStructuredOutput (VObj r) = Return true)
  ∧ (is_Some (data !! "hasOwnProperty") ->
       ∃ e, validateStructuredOutput (VObj r) = Throw e)
  ∧ r !! "timestamp" = Some (VStr now)
  ∧ truthy (get r "status") = true
  ∧ truthy (get r "source_language") = true
  ∧ (∀ k v, k ∉ computed_fields -> data !! k = Some v -> r !! k = Some v)
  ∧ (∀ k, k ∉ computed_fields -> data !! k = None ->
          r !! k = DEFAULT_RESPONSE_STRUCTURE !! k).
Proof.
  intros r. subst r.
  assert (∀ k (P : Prop), k ∉ computed_fields ->
            (∀ k', k' ≠ "status" -> k' ≠ "translated_text" ->
                   k' ≠ "target_language" -> k' ≠ "source_language" ->
                   k' ≠ "timestamp" -> k' = k -> P) -> P) as Hother.
  { intros k P Hk HP. apply (HP k); try done; intros ->; apply Hk;
      unfold computed_fields; set_solver. }
  split; [intros k Hk; by apply formatStructuredOutput_fields|].
  split.
  { intros Hnone. by rewrite formatStructuredOutput_valid, Hnone. }
  split.
  { intros [v Hv]. rewrite formatStructuredOutput_valid, Hv. eauto. }
  split; [by rewrite formatStructuredOutput_lookup|].
  unfold get. rewrite !formatStructuredOutput_lookup. simpl.
  split; [by apply or_else_truthy|]. split; [by apply or_else_truthy|].
  split.
  - intros k v Hk Hv. apply (Hother k); [exact Hk|]. intros k' ????? ->.
    rewrite formatStructuredOutput_lookup.
    repeat (case_decide; [congruence|]).
    by rewrite lookup_union, Hv, union_Some_l.
  - intros k Hk Hnone. apply (Hother k); [exact Hk|]. intros k' ????? ->.
    rewrite formatStructuredOutput_lookup.
    repeat (case_decide; [congruence|]).
    by rewrite lookup_union, Hnone, (left_id_L None _).
Qed.

Lemma formatStructuredOutput_complete_witness :
  formatStructuredOutput clock {[ "source" := VStr "rag" ]} !! "source"
  = Some (VStr "rag")
  ∧ formatStructuredOutput clock {[ "source" := VStr "rag" ]} !! "error"
    = Some VNull
  ∧ validateStructuredOutput
      (VObj (formatStructuredOutput clock {[ "source" := VStr "rag" ]}))
    = Return true
  ∧ ∃ e, validateStructuredOutput
           (VObj (formatStructuredOutput clock
                    {[ "hasOwnProperty" := VNum 1 ]}))
         = Throw e.
Proof.
  assert (∀ k : jsstring, k ≠ "timestamp" -> k ≠ "source_language" ->
            k ≠ "target_language" -> k ≠ "translated_text" ->
            k ≠ "status" -> k ∉ computed_fields) as Hk.
  { intros k ????? H. unfold computed_fields in H.
    repeat (apply elem_of_cons in H as [H|H]; [done|]).
    by apply elem_of_nil in H. }
  destruct (formatStructuredOutput_complete clock
              {[ "hasOwnProperty" := VNum 1 ]})
    as (_ & _ & Hthrow & _).
  destruct (formatStructuredOutput_complete clock {[ "source" := VStr "rag" ]})
    as (_ & Hvalid & _ & _ & _ & _ & Hkeep & Hfill).
  split; [apply Hkeep; [by apply Hk|reflexivity]|].
  split; [rewrite Hfill; [reflexivity|by apply Hk|reflexivity]|].
  split; [apply Hvalid; reflexivity|].
  apply Hthrow. eexists. reflexivity.
Defined.

(** X21. In [createSuccessResponse] the additional data win over the
    arguments: a truthy source_language, target_language, translated_text
    or status among the additional data is what the result reports, so a
    "success response" can carry the status error. *)
Theorem additional_data_win (now t s l : jsstring) (extra : object)
    (k : jsstring) (v : value) :
  k ∈ requiredFields ->
  extra !! k = Some v -> truthy v = true ->
  createSuccessResponse now t s l extra !! k = Some v.
Proof.
  intros Hk Hv Htrue. unfold createSuccessResponse.
  assert (get (extra ∪ object_literal
                 [ ("source_language", VStr s); ("target_language", VStr l);
                   ("translated_text", VStr t); ("status", VStr "success") ])
              k = v) as Hget.
  { unfold get. by rewrite lookup_union, Hv, union_Some_l. }
  revert Hget.
  generalize (extra ∪ object_literal
                 [ ("source_language", VStr s); ("target_language", VStr l);
                   ("translated_text", VStr t); ("status", VStr "success") ]).
  intros data Hget. rewrite formatStructuredOutput_lookup.
  unfold requiredFields in Hk.
  repeat (apply elem_of_cons in Hk as [->|Hk];
          [repeat (case_decide; [congruence|]);
           (case_decide; [|congruence]);
           by rewrite Hget, or_else_keep|]).
  by apply elem_of_nil in Hk.
Qed.

Lemma additional_data_win_witness :
  createSuccessResponse clock "hola" "English" "Spanish"
    {[ "status" := VStr "error" ]} !! "status"
  = Some (VStr "error").
Proof.
  apply additional_data_win; [|reflexivity..].
  unfold requiredFields. apply list_elem_of_In. simpl. tauto.
Defined.

(** X22. [createErrorResponse] and the failure result of [translate]:
    the helper returns a valid result with status error, the message in its
    error field, an empty translated text and the default confidence; an
    empty source language becomes "auto-detected".  What [translate]
    returns when its body throws is this result for the message thrown, the
    source language of the request (or "unknown") and its target
    language. *)
Theorem createErrorResponse_result
    (JSON_parse : jsstring -> result object)
    (generateContent : jsstring -> result generation)
    file now text L src error s l :
  (let r := createErrorResponse now error s l in
   r !! "status" = Some (VStr "error")
   ∧ r !! "error" = Some (VStr error)
   ∧ r !! "translated_text" = Some (VStr "")
   ∧ r !! "target_language" = Some (VStr l)
   ∧ r !! "source_language" = Some (VStr (or_string (Some s) "auto-detected"))
   ∧ r !! "confidence" = Some (VNum 1)
   ∧ validateStructuredOutput (VObj r) = Return true)
  ∧ (∀ e,
       translate_body JSON_parse generateContent file now text L src
       = Throw e ->
       translate JSON_parse generateContent file now text L src
       = Return (createErrorResponse now (message e)
                   (or_string src "unknown") L)).
Proof.
  split.
  - cbv zeta. unfold createErrorResponse.
    split; [|split; [|split; [|split; [|split; [|split]]]]];
      [rewrite formatStructuredOutput_lookup; destruct s, l;
       vm_compute; reflexivity..|].
    rewrite formatStructuredOutput_valid.
    replace (object_literal _ !! "hasOwnProperty") with (@None value);
      [reflexivity|].
    unfold object_literal, set_fields. simpl.
    by rewrite !lookup_insert_ne, lookup_empty.
  - intros e He. unfold translate. rewrite He. reflexivity.
Qed.

Lemma createErrorResponse_result_witness :
  translate only_empty_object (model_failing "quota exceeded") no_file clock
    "good morning everyone" "Spanish" (Some "English")
  = Return (createErrorResponse clock "quota exceeded" "English" "Spanish").
Proof.
  destruct (createErrorResponse_result only_empty_object
              (model_failing "quota exceeded") no_file clock
              "good morning everyone" "Spanish" (Some "English")
              "" "" "") as [_ H].
  apply (H (Error "quota exceeded")). vm_compute. reflexivity.
Defined.
